(** * Provenance hashing of snakemake jobs (snakemake/caching/hash.py)

    A shallow embedding of [ProvenanceHashMap] and a verification of its
    determinism, memoisation and error behaviour.

    Conventions of the embedding.
    - A Python [str] is a Rocq [string] holding its UTF-8 bytes; comparing
      such strings bytewise is comparing the originals by code point, and
      [str.encode()] is the conversion to a byte list.
    - [bytes] are [list byte].
    - A raised exception is the [Raise] outcome of [result]; the engine's
      dictionary survives an exception, so every method returns the engine
      state next to its outcome.
    - The recursion of [_get_provenance_hash] is bounded by an explicit
      stack depth; running out of it is Python's [RecursionError]. *)

From stdpp Require Import gmap strings list sorting relations pretty.
From Stdlib Require Import Strings.Byte Strings.Ascii NArith.

Local Open Scope string_scope.
Local Open Scope list_scope.
Local Open Scope nat_scope.

(** ** Exceptions and outcomes *)

Inductive exn : Type :=
| WorkflowError (msg : string)
| TypeError
| ValueError (msg : string)
| OSError
| UnsupportedOperation
| RecursionError.

Inductive result (A : Type) : Type :=
| Ok (a : A)
| Raise (e : exn).
Arguments Ok {A} a.
Arguments Raise {A} e.

(** Sequencing: the first exception ends the computation. *)
Global Instance result_bind : MBind result := λ A B k r,
  match r with
  | Ok a => k a
  | Raise e => Raise e
  end.

(** A [for] loop whose body may raise. *)
Fixpoint for_each {A H} (body : H → A → result H) (h : H) (l : list A) : result H :=
  match l with
  | [] => Ok h
  | x :: l' => h' ← body h x; for_each body h' l'
  end.

(** ** What the module imports

    [hashlib], [json], the comparison of parameter values and the source
    resolution of scripts and wrappers are used by the module but defined
    outside of it. *)

Class Runtime := {
  (** the values held by [job.params] *)
  PyValue : Type;
  (** [a == b] and [a < b] on parameter values; [<] may raise *)
  value_eq : PyValue → PyValue → bool;
  value_lt : PyValue → PyValue → result bool;
  (** [json.dumps(value, sort_keys=True)] *)
  json_dumps : PyValue → result string;
  (** [hashlib.sha256(data).hexdigest()] *)
  sha256_hexdigest : list byte → string;
  (** the source text returned by [script.get_source(path)] *)
  get_source : string → string;
  (** [wrapper.get_script(path, prefix=prefix)] *)
  get_script : string → string → string;
}.

(** ** Builtins *)

Definition str_encode (s : string) : list byte := String.list_byte_of_string s.

(** A [hashlib.sha256] object is determined by the bytes fed so far. *)
Definition sha256 : Type := list byte.
Definition sha256_new : sha256 := [].
Definition update (h : sha256) (data : list byte) : sha256 := (h ++ data)%list.
Definition hexdigest `{Runtime} (h : sha256) : string := sha256_hexdigest h.

(** [sorted(l)]: stable, by the elements' [<], raising what [<] raises. *)
Fixpoint insert_sorted {A} (lt : A → A → result bool) (x : A) (l : list A)
  : result (list A) :=
  match l with
  | [] => Ok [x]
  | y :: l' =>
      b ← lt y x;
      if b : bool then (r ← insert_sorted lt x l'; Ok (y :: r))
      else Ok (x :: y :: l')
  end.

Fixpoint sorted {A} (lt : A → A → result bool) (l : list A) : result (list A) :=
  match l with
  | [] => Ok []
  | x :: l' => s ← sorted lt l'; insert_sorted lt x s
  end.

Definition str_lt (a b : string) : result bool := Ok (String.ltb a b).

(** [lt] compares [y] with an [x] met before it by their keys. *)
Definition by_key {A} (key : A → string) (lt : A → A → result bool)
    (x y : A) : Prop :=
  lt y x = Ok (String.ltb (key y) (key x)).

(** [(k1, v1) < (k2, v2)]: the first differing component decides. *)
Definition tuple_lt `{Runtime} (a b : string * PyValue) : result bool :=
  if bool_decide (a.1 = b.1) then
    if value_eq a.2 b.2 then Ok false else value_lt a.2 b.2
  else Ok (String.ltb a.1 b.1).

(** [set(l)]: one occurrence of each element.  A set is iterated in an order
    of its own; here it is the list's, and the graphs are taken in every
    order of their lists. *)
Definition py_set {A} `{EqDecision A} (l : list A) : list A := remove_dups l.

(** *** Files *)

Definition Path : Type := string.
Definition FileSystem : Type := Path → option (list byte).

Record FileObj := { readable : bool; data : list byte }.

Definition mode_chars : list ascii := String.list_ascii_of_string "xrwa+tb".

Definition has (c : ascii) (modes : list ascii) : bool := bool_decide (c ∈ modes).

(** [open(file, mode)], with the mode checks of CPython's [io.open]: known
    letters, none twice, not text and binary at once, exactly one of
    create, read, write and append.  Only a file opened for reading has
    content to read here. *)
Definition open_ (fs : FileSystem) (file : Path) (mode : string) : result FileObj :=
  let modes := String.list_ascii_of_string mode in
  if negb (bool_decide (Forall (λ a, a ∈ mode_chars) modes))
     || negb (bool_decide (NoDup modes))
  then Raise (ValueError ("invalid mode: '" +:+ mode +:+ "'"))
  else
    let creating := has "x"%char modes in
    let reading := has "r"%char modes in
    let writing := has "w"%char modes in
    let appending := has "a"%char modes in
    let updating := has "+"%char modes in
    let text := has "t"%char modes in
    let binary := has "b"%char modes in
    if text && binary
    then Raise (ValueError "can't have text and binary mode at once")
    else if 1 <? Nat.b2n creating + Nat.b2n reading
                 + Nat.b2n writing + Nat.b2n appending
    then Raise (ValueError "must have exactly one of create/read/write/append mode")
    else if negb (creating || reading || writing || appending)
    then Raise (ValueError
      "Must have exactly one of create/read/write/append mode and at most one plus")
    else if reading then
      match fs file with
      | Some content => Ok {| readable := true; data := content |}
      | None => Raise OSError
      end
    else if creating && bool_decide (is_Some (fs file)) then Raise OSError
    else Ok {| readable := updating; data := [] |}.

(** [f.read(size)]: the block read and the file object after it. *)
Definition read (f : FileObj) (size : nat) : result (list byte * FileObj) :=
  if readable f
  then Ok (take size (data f), {| readable := true; data := drop size (data f) |})
  else Raise UnsupportedOperation.

(** [for byte_block in iter(lambda: f.read(4096), b""): h.update(byte_block)] *)
Fixpoint read_blocks (n : nat) (f : FileObj) (h : sha256) : result sha256 :=
  match n with
  | 0 => Ok h
  | S n' =>
      r ← read f 4096;
      match r.1 with
      | [] => Ok h
      | _ => read_blocks n' r.2 (update h r.1)
      end
  end.

(** Every non-empty block shortens the file, so its length bounds the loop. *)
Definition hash_file (f : FileObj) (h : sha256) : result sha256 :=
  read_blocks (S (length (data f))) f h.

(** ** The data model *)

Module Env.
Record t := { singularity_img_url : option string; content : string }.
End Env.

Record Rule := {
  name : string;
  shellcmd : string;
  script : string;
  wrapper : string;
}.

Record Job `{Runtime} := {
  output : list Path;
  input : list Path;
  (** what [job.params._allitems()] yields, in its order *)
  params : list (string * PyValue);
  rule : Rule;
  is_shell : bool;
  is_script : bool;
  is_wrapper : bool;
  conda_env : option Env.t;
  singularity_img_url : option string;
}.

Record Workflow := {
  use_conda : bool;
  use_singularity : bool;
  wrapper_prefix : string;
}.

(** Jobs are dictionary keys; a job is named by its identity. *)
Definition JobId : Type := nat.

Record DAG `{Runtime} := {
  workflow : Workflow;
  jobs : JobId → Job;
  (** [dag.dependencies[job]]: upstream job to the files it supplies, in the
      dictionary's iteration order *)
  dependencies : JobId → list (JobId * list Path);
}.

(** The truth value of an optional string. *)
Definition truthy (s : option string) : bool :=
  match s with
  | Some s => negb (bool_decide (s = ""))
  | None => false
  end.

Definition the (s : option string) : string := default "" s.

(** [b and x] for an object or [None] [x]: [x] when [b] holds, else falsy. *)
Definition py_and {A} (b : bool) (x : option A) : option A :=
  if b then x else None.

(** ** The engine *)

Record ProvenanceHashMap := {
  _hashes : gmap JobId string;
  (** ghost: the jobs stored by "Store for re-use", latest first *)
  stores : list JobId;
}.

Definition __init__ : ProvenanceHashMap := {| _hashes := ∅; stores := [] |}.

Definition __version__ : string := "0.1".

(** A method: an outcome and the engine after it. *)
Definition M (A : Type) : Type := ProvenanceHashMap → result A * ProvenanceHashMap.

Definition ret {A} (a : A) : M A := λ self, (Ok a, self).
Definition raise {A} (e : exn) : M A := λ self, (Raise e, self).
Definition lift {A} (r : result A) : M A := λ self, (r, self).
Global Instance M_bind : MBind M := λ A B k m self,
  match m self with
  | (Ok a, self') => k a self'
  | (Raise e, self') => (Raise e, self')
  end.

(** The calls made by a generator expression, in order. *)
Fixpoint for_calls {A B} (f : A → M B) (l : list A) : M (list B) :=
  match l with
  | [] => ret []
  | x :: l' => y ← f x ; ys ← for_calls f l' ; ret (y :: ys)
  end.

Section Engine.
Context `{Runtime}.
Variable fs : FileSystem.
Variable dag : DAG.

(** "Hash shell command or script." *)
Definition hash_code (job : Job) (h : sha256) : sha256 :=
  if is_shell job then update h (str_encode (shellcmd (rule job)))
  else if is_script job then
    update h (str_encode (get_source (script (rule job))))
  else if is_wrapper job then
    update h (str_encode (get_source
      (get_script (wrapper (rule job)) (wrapper_prefix (workflow dag)))))
  else h.

(** "Hash params." *)
Definition hash_params (job : Job) (h : sha256) : result sha256 :=
  items ← sorted tuple_lt (params job);
  for_each (λ h '(key, value),
      let h := update h (str_encode key) in
      s ← json_dumps value;
      Ok (update h (str_encode s)))
    h items.

(** [any(f in depfiles for depfiles in deps.values())] *)
Definition supplied (deps : list (JobId * list Path)) (f : Path) : bool :=
  existsb (λ depfiles, bool_decide (f ∈ depfiles)) deps.*2.

(** "Hash input files that are not generated by other jobs." *)
Definition hash_input (job : Job) (deps : list (JobId * list Path))
    (h : sha256) : result sha256 :=
  for_each (λ h f,
      if negb (supplied deps f) then
        f ← open_ fs f "b";
        hash_file f h
      else Ok h)
    h (input job).

(** "Hash used containers or conda environments." *)
Definition hash_env (job : Job) (h : sha256) : sha256 :=
  match py_and (use_conda (workflow dag)) (conda_env job) with
  | Some env =>
      let h :=
        if use_singularity (workflow dag) && truthy (Env.singularity_img_url env)
        then update h (str_encode (the (Env.singularity_img_url env)))
        else h in
      update h (str_encode (Env.content env))
  | None =>
      if use_singularity (workflow dag) && truthy (singularity_img_url job)
      then update h (str_encode (the (singularity_img_url job)))
      else h
  end.

(** Everything the job itself feeds into [h], before its dependencies. *)
Definition hash_own (job : JobId) : result sha256 :=
  let J := jobs dag job in
  let h := sha256_new in
  let h := hash_code J h in
  h ← hash_params J h;
  h ← hash_input J (dependencies dag job) h;
  Ok (hash_env J h).

(** [for dep_hash in sorted(...): h.update(dep_hash.encode())] *)
Definition hash_deps (dep_hashes : list string) (h : sha256) : result sha256 :=
  dep_hashes ← sorted str_lt dep_hashes;
  Ok (foldl (λ h dep_hash, update h (str_encode dep_hash)) h dep_hashes).

(** [self._hashes[job]] when [job in self._hashes] *)
Definition lookup (job : JobId) : M (option string) :=
  λ self, (Ok (_hashes self !! job), self).

(** [self._hashes[job] = provenance_hash] *)
Definition store (job : JobId) (provenance_hash : string) : M () :=
  λ self,
    (Ok (), {| _hashes := <[job := provenance_hash]> (_hashes self);
               stores := job :: stores self |}).

(** The exception of a job with several outputs.  [WorkflowError] is the
    repository's exception class; the module names it without importing
    it, as it does [script] and [wrapper]. *)
Definition multi_output (job : JobId) : exn :=
  WorkflowError
    ("Cannot generate hash for rule " +:+ name (rule (jobs dag job))
     +:+ ": it has more than one output file.").

(** The recursion is structural in the stack depth left; [hash_own] and
    [hash_deps] are the straight-line parts of the body. *)
Fixpoint _get_provenance_hash (depth : nat) (job : JobId) : M string :=
  match depth with
  | 0 => raise RecursionError
  | S depth =>
      stored ← lookup job ;
      match stored with
      | Some provenance_hash => ret provenance_hash
      | None =>
          if 1 <? length (output (jobs dag job)) then
            raise (multi_output job)
          else
            h ← lift (hash_own job) ;
            dep_hashes ←
              for_calls (_get_provenance_hash depth)
                (py_set (dependencies dag job).*1) ;
            h ← lift (hash_deps dep_hashes h) ;
            let provenance_hash := hexdigest h in
            _ ← store job provenance_hash ;
            ret provenance_hash
      end
  end.

(** [get_provenance_hash] for a given value of the module's version. *)
Definition get_provenance_hash_as (version : string) (depth : nat)
    (job : JobId) : M string :=
  let versioned_hash := sha256_new in
  provenance_hash ← _get_provenance_hash depth job ;
  let versioned_hash := update versioned_hash (str_encode provenance_hash) in
  let versioned_hash := update versioned_hash (str_encode version) in
  ret (hexdigest versioned_hash).

Definition get_provenance_hash : nat → JobId → M string :=
  get_provenance_hash_as __version__.

End Engine.

(** ** Reference semantics

    The digest of a job as a function of the graph alone: no dictionary, no
    sharing.  [provenance n job] is defined when the job and everything
    upstream of it can be hashed within [n] levels. *)

Section Reference.
Context `{Runtime}.
Variable fs : FileSystem.
Variable dag : DAG.

Fixpoint provenance (n : nat) (job : JobId) : option string :=
  match n with
  | 0 => None
  | S n =>
      if 1 <? length (output (jobs dag job)) then None
      else
        match hash_own fs dag job with
        | Raise _ => None
        | Ok h =>
            dep_hashes ← mapM (provenance n) (py_set (dependencies dag job).*1);
            match hash_deps dep_hashes h with
            | Ok h => Some (hexdigest h)
            | Raise _ => None
            end
        end
  end.

(** [upstream j k]: [k] is a key of [dag.dependencies[j]]. *)
Definition upstream (j k : JobId) : Prop := k ∈ (dependencies dag j).*1.

(** Every stored digest is the job's digest. *)
Definition memo_ok (self : ProvenanceHashMap) : Prop :=
  ∀ j d, _hashes self !! j = Some d → ∃ n, provenance n j = Some d.

(** The ghost history lists the stored jobs, each once. *)
Definition stores_ok (self : ProvenanceHashMap) : Prop :=
  NoDup (stores self) ∧ ∀ j, j ∈ stores self ↔ is_Some (_hashes self !! j).

(** [self'] is [self] after some calls: nothing dropped or changed, and the
    jobs in [new], all satisfying [P], stored one time each. *)
Definition grows (P : JobId → Prop) (self self' : ProvenanceHashMap) : Prop :=
  _hashes self ⊆ _hashes self' ∧
  ∃ new, stores self' = new ++ stores self ∧ NoDup new ∧
    (∀ k, k ∈ new ↔ _hashes self !! k = None ∧ is_Some (_hashes self' !! k)) ∧
    (∀ k, k ∈ new → P k).

(** [job.params] is a mapping: no name twice. *)
Definition params_wf : Prop := ∀ j, NoDup (params (jobs dag j)).*1.

(** What a call of [f] leaves behind: sound digests, nothing lost, only jobs
    upstream of [job] stored, and the answer stored for [job]. *)
Definition sound (f : JobId → M string) : Prop :=
  ∀ job self r self',
    memo_ok self → f job self = (r, self') →
    memo_ok self' ∧ grows (rtc upstream job) self self' ∧
    ∀ d, r = Ok d → _hashes self' !! job = Some d.

(** The ways through one activation of [_get_provenance_hash], by outcome
    and engine left behind. *)
Inductive activation (depth : nat) (job : JobId) (self : ProvenanceHashMap)
  : result string → ProvenanceHashMap → Prop :=
| act_hit d :
    _hashes self !! job = Some d →
    activation depth job self (Ok d) self
| act_multi_output :
    _hashes self !! job = None →
    1 < length (output (jobs dag job)) →
    activation depth job self (Raise (multi_output dag job)) self
| act_own_raises e :
    _hashes self !! job = None →
    length (output (jobs dag job)) ≤ 1 →
    hash_own fs dag job = Raise e →
    activation depth job self (Raise e) self
| act_dep_raises h e self' :
    _hashes self !! job = None →
    length (output (jobs dag job)) ≤ 1 →
    hash_own fs dag job = Ok h →
    for_calls (_get_provenance_hash fs dag depth)
      (py_set (dependencies dag job).*1) self = (Raise e, self') →
    activation depth job self (Raise e) self'
| act_store h dep_hashes self' h' :
    _hashes self !! job = None →
    length (output (jobs dag job)) ≤ 1 →
    hash_own fs dag job = Ok h →
    for_calls (_get_provenance_hash fs dag depth)
      (py_set (dependencies dag job).*1) self = (Ok dep_hashes, self') →
    hash_deps dep_hashes h = Ok h' →
    activation depth job self (Ok (hexdigest h'))
      (store job (hexdigest h') self').2.
End Reference.

(** Two jobs, and two graphs, that differ in iteration order only. *)
Definition job_equiv `{Runtime} (J1 J2 : Job) : Prop :=
  output J1 = output J2 ∧ input J1 = input J2 ∧ params J1 ≡ₚ params J2 ∧
  rule J1 = rule J2 ∧ is_shell J1 = is_shell J2 ∧ is_script J1 = is_script J2 ∧
  is_wrapper J1 = is_wrapper J2 ∧ conda_env J1 = conda_env J2 ∧
  singularity_img_url J1 = singularity_img_url J2.

Definition dag_equiv `{Runtime} (dag1 dag2 : DAG) : Prop :=
  workflow dag1 = workflow dag2 ∧
  (∀ j, job_equiv (jobs dag1 j) (jobs dag2 j)) ∧
  (∀ j, dependencies dag1 j ≡ₚ dependencies dag2 j).

(** The engines one can meet: a new one, or one that served requests, on
    the graph in any iteration order and with any stack depth. *)
Inductive served `{Runtime} (fs : FileSystem) (dag : DAG)
  : ProvenanceHashMap → Prop :=
| served_new : served fs dag __init__
| served_call dag' version depth job self r self' :
    served fs dag self →
    dag_equiv dag dag' →
    get_provenance_hash_as fs dag' version depth job self = (r, self') →
    served fs dag self'.

(** ** The parameters, as documented

    Feeding one item: the bytes of its name, then its value in the
    serializer's canonical form. *)
Definition feed_item `{Runtime} (h : sha256) (item : string * PyValue)
  : result sha256 :=
  s ← json_dumps item.2; Ok (h ++ str_encode item.1 ++ str_encode s).

(** ** The environment descriptor, as documented

    Container reference then environment content when both are active, the
    environment content alone, the standalone container reference alone, or
    nothing. *)
Definition env_descriptor `{Runtime} (w : Workflow) (job : Job) : list byte :=
  let env_active := use_conda w && bool_decide (is_Some (conda_env job)) in
  let env_container :=
    use_singularity w && truthy (conda_env job ≫= Env.singularity_img_url) in
  let container := use_singularity w && truthy (singularity_img_url job) in
  if env_active && env_container then
    str_encode (the (conda_env job ≫= Env.singularity_img_url))
    ++ str_encode (default "" (Env.content <$> conda_env job))
  else if env_active then str_encode (default "" (Env.content <$> conda_env job))
  else if container then str_encode (the (singularity_img_url job))
  else [].

(** ** SHA-256 (FIPS 180-4), for a runtime one can run *)

Module SHA256.
Local Open Scope N_scope.

(** The constants are fractional bits of roots of the first primes. *)
Definition prime (n : nat) : bool :=
  forallb (λ d, negb (n `mod` d =? 0)%nat) (seq 2 (n - 2)).

Definition primes (n : nat) : list N := N.of_nat <$> filter prime (seq 2 n).

Definition cbrt (x : N) : N :=
  foldl (λ r b, let r' := r + N.shiftl 1 (N.of_nat b) in
                if r' * r' * r' <=? x then r' else r)
    0 (reverse (seq 0 40)).

Definition low32 (x : N) : N := N.land x (N.shiftl 1 32 - 1).

Definition K : list N :=
  Eval vm_compute in (λ p, low32 (cbrt (N.shiftl p 96))) <$> primes 310.

Definition H0 : list N :=
  Eval vm_compute in (λ p, low32 (N.sqrt (N.shiftl p 64))) <$> primes 18.

Definition mask : N := N.shiftl 1 32 - 1.
Definition add (a b : N) : N := N.land (a + b) mask.
Definition rotr (n x : N) : N :=
  N.lor (N.shiftr x n) (N.land (N.shiftl x (32 - n)) mask).
Definition shr (n x : N) : N := N.shiftr x n.
Definition neg (x : N) : N := N.lxor x mask.
Definition Ch (x y z : N) : N := N.lxor (N.land x y) (N.land (neg x) z).
Definition Maj (x y z : N) : N :=
  N.lxor (N.lxor (N.land x y) (N.land x z)) (N.land y z).
Definition Sigma0 (x : N) : N := N.lxor (N.lxor (rotr 2 x) (rotr 13 x)) (rotr 22 x).
Definition Sigma1 (x : N) : N := N.lxor (N.lxor (rotr 6 x) (rotr 11 x)) (rotr 25 x).
Definition sigma0 (x : N) : N := N.lxor (N.lxor (rotr 7 x) (rotr 18 x)) (shr 3 x).
Definition sigma1 (x : N) : N := N.lxor (N.lxor (rotr 17 x) (rotr 19 x)) (shr 10 x).

(** The message with its padding: a one bit, zeros, the length in bits. *)
Definition be_bytes (n : nat) (x : N) : list N :=
  (λ i, N.land (N.shiftr x (8 * N.of_nat i)) 0xff) <$> reverse (seq 0 n).

Definition pad (msg : list byte) : list N :=
  let len := length msg in
  let zeros := ((119 - len `mod` 64) `mod` 64)%nat in
  (Byte.to_N <$> msg) ++ [0x80] ++ replicate zeros 0 ++ be_bytes 8 (8 * N.of_nat len).

Definition word (bs : list N) : N := foldl (λ w b, N.lor (N.shiftl w 8) b) 0 bs.

(** The words of a block, then the schedule, latest first. *)
Fixpoint words (n : nat) (bs : list N) : list N :=
  match n with
  | O => []
  | S n => word (take 4 bs) :: words n (drop 4 bs)
  end.

Fixpoint schedule (n : nat) (rev_w : list N) : list N :=
  match n with
  | O => rev_w
  | S n =>
      let w i := nth i rev_w 0 in
      schedule n
        (add (add (sigma1 (w 1%nat)) (w 6%nat))
             (add (sigma0 (w 14%nat)) (w 15%nat)) :: rev_w)
  end.

Definition round (s : list N) (kw : N * N) : list N :=
  match s with
  | [a; b; c; d; e; f; g; h] =>
      let t1 := add (add (add h (Sigma1 e)) (add (Ch e f g) kw.1)) kw.2 in
      let t2 := add (Sigma0 a) (Maj a b c) in
      [add t1 t2; a; b; c; add d t1; e; f; g]
  | _ => s
  end.

Definition compress (h : list N) (block : list N) : list N :=
  let w := reverse (schedule 48 (reverse (words 16 block))) in
  zip_with add h (foldl round h (zip K w)).

Fixpoint blocks (n : nat) (h : list N) (bs : list N) : list N :=
  match n with
  | O => h
  | S n => blocks n (compress h (take 64 bs)) (drop 64 bs)
  end.

Definition digest (msg : list byte) : list N :=
  let bs := pad msg in
  blocks (length bs / 64) H0 bs.

Definition hex_digit (n : N) : ascii :=
  ascii_of_N (if n <? 10 then 48 + n else 87 + n).

Definition hex (bs : list N) : string :=
  String.string_of_list_ascii
    (bs ≫= λ b, [hex_digit (N.shiftr b 4); hex_digit (N.land b 0xf)]).

Definition hexdigest (msg : list byte) : string :=
  hex (digest msg ≫= be_bytes 4).
End SHA256.

(** ** CPython, for parameter values that are [None], booleans, integers or
    objects [json] cannot serialize *)

Inductive value : Type :=
| PyNone
| PyBool (b : bool)
| PyInt (n : Z)
| PyObject (id : nat).

Definition number (v : value) : option Z :=
  match v with
  | PyBool b => Some (if b then 1 else 0)%Z
  | PyInt n => Some n
  | _ => None
  end.

Definition py_eq (a b : value) : bool :=
  match a, b with
  | PyNone, PyNone => true
  | PyObject i, PyObject j => bool_decide (i = j)
  | _, _ =>
      match number a, number b with
      | Some x, Some y => bool_decide (x = y)
      | _, _ => false
      end
  end.

Definition py_lt (a b : value) : result bool :=
  match number a, number b with
  | Some x, Some y => Ok (bool_decide (x < y)%Z)
  | _, _ => Raise TypeError
  end.

Definition dumps (v : value) : result string :=
  match v with
  | PyNone => Ok "null"
  | PyBool true => Ok "true"
  | PyBool false => Ok "false"
  | PyInt n => Ok (pretty n)
  | PyObject _ => Raise TypeError
  end.

(** [sources] and [wrappers] stand for the files of scripts and wrappers. *)
Definition cpython (sources : string → string)
    (wrappers : string → string → string) : Runtime := {|
  PyValue := value;
  value_eq := py_eq;
  value_lt := py_lt;
  json_dumps := dumps;
  sha256_hexdigest := SHA256.hexdigest;
  get_source := sources;
  get_script := wrappers;
|}.

(** ** Example graphs

    A diamond (A → B, A → C, B → D, C → D; jobs 0 to 3), a job reading a
    file no job supplies (4), a job with two outputs (5) and a job with a
    parameter [json] cannot serialize (6). *)

Definition py : Runtime := cpython (λ _, "") (λ _ _, "").

Definition shell_job (cmd : string) (out inp : list Path)
    (pars : list (string * @PyValue py)) : @Job py := {|
  output := out;
  input := inp;
  params := pars;
  rule := {| name := "r"; shellcmd := cmd; script := ""; wrapper := "" |};
  is_shell := true;
  is_script := false;
  is_wrapper := false;
  conda_env := None;
  singularity_img_url := None;
|}.

Definition plain : Workflow :=
  {| use_conda := false; use_singularity := false; wrapper_prefix := "" |}.

Definition diamond : @DAG py := {|
  workflow := plain;
  jobs j :=
    match j with
    | 0 => shell_job "echo a > {output}" ["a.txt"] [] []
    | 1 => shell_job "sort {input} > {output}" ["b.txt"] ["a.txt"] [("n", PyInt 3)]
    | 2 => shell_job "uniq {input} > {output}" ["c.txt"] ["a.txt"]
             [("strict", PyBool true); ("n", PyInt 2)]
    | 3 => shell_job "cat {input} > {output}" ["d.txt"] ["b.txt"; "c.txt"] []
    | 4 => shell_job "wc {input} > {output}" ["e.txt"] ["data.txt"] []
    | 5 => shell_job "split {input}" ["x.txt"; "y.txt"] [] []
    | 6 => shell_job "plot" ["p.txt"] [] [("style", PyObject 0)]
    | _ => shell_job "" [] [] []
    end;
  dependencies j :=
    match j with
    | 1 | 2 => [(0, ["a.txt"])]
    | 3 => [(1, ["b.txt"]); (2, ["c.txt"])]
    | _ => []
    end;
|}.

(** The diamond met in another iteration order. *)
Definition diamond' : @DAG py := {|
  workflow := plain;
  jobs j :=
    match j with
    | 2 => shell_job "uniq {input} > {output}" ["c.txt"] ["a.txt"]
             [("n", PyInt 2); ("strict", PyBool true)]
    | _ => jobs diamond j
    end;
  dependencies j :=
    match j with
    | 3 => [(2, ["c.txt"]); (1, ["b.txt"])]
    | _ => dependencies diamond j
    end;
|}.

Definition disk : FileSystem :=
  λ f, if bool_decide (f = "data.txt") then Some (str_encode "abc") else None.

(** ** Further notions *)

(** The dictionary holds, with a job, the jobs it depends on. *)
Definition closed `{Runtime} (dag : DAG) (self : ProvenanceHashMap) : Prop :=
  ∀ j k, is_Some (_hashes self !! j) → upstream dag j k →
         is_Some (_hashes self !! k).

(** A graph with a cycle (0 and 1 depend on each other) and a chain below a
    job with two outputs (4 needs 3, 3 needs 2, and 2 has two outputs). *)
Definition tangled : @DAG py := {|
  workflow := plain;
  jobs j :=
    match j with
    | 2 => shell_job "split {input}" ["x.txt"; "y.txt"] [] []
    | 3 => shell_job "sort {input} > {output}" ["s.txt"] ["x.txt"] []
    | 4 => shell_job "uniq {input} > {output}" ["u.txt"] ["s.txt"] []
    | _ => shell_job "touch {output}" ["l.txt"] [] []
    end;
  dependencies j :=
    match j with
    | 0 => [(1, [])]
    | 1 => [(0, [])]
    | 3 => [(2, ["x.txt"])]
    | 4 => [(3, ["s.txt"])]
    | _ => []
    end;
|}.

(** Two graphs whose jobs have the same dependencies, are refused for
    their outputs alike and feed the same bytes themselves. *)
Definition same_hashing `{Runtime} (fs : FileSystem) (dag1 dag2 : DAG) : Prop :=
  ∀ j, dependencies dag1 j = dependencies dag2 j ∧
       (1 <? length (output (jobs dag1 j))) = (1 <? length (output (jobs dag2 j))) ∧
       hash_own fs dag1 j = hash_own fs dag2 j.

(** A job under another rule name and with other outputs. *)
Definition relabel `{Runtime} (nm : string) (outs : list Path) (J : Job) : Job := {|
  output := outs;
  input := input J;
  params := params J;
  rule := {| name := nm; shellcmd := shellcmd (rule J);
             script := script (rule J); wrapper := wrapper (rule J) |};
  is_shell := is_shell J;
  is_script := is_script J;
  is_wrapper := is_wrapper J;
  conda_env := conda_env J;
  singularity_img_url := singularity_img_url J;
|}.

Definition relabelled `{Runtime} (dag : DAG) (nm : JobId → string)
    (outs : JobId → list Path) : DAG := {|
  workflow := workflow dag;
  jobs j := relabel (nm j) (outs j) (jobs dag j);
  dependencies := dependencies dag;
|}.

(** A job with another shell command and other params. *)
Definition with_code `{Runtime} (cmd : string) (pars : list (string * PyValue))
    (J : Job) : Job := {|
  output := output J;
  input := input J;
  params := pars;
  rule := {| name := name (rule J); shellcmd := cmd;
             script := script (rule J); wrapper := wrapper (rule J) |};
  is_shell := is_shell J;
  is_script := is_script J;
  is_wrapper := is_wrapper J;
  conda_env := conda_env J;
  singularity_img_url := singularity_img_url J;
|}.

Definition recoded `{Runtime} (dag : DAG) (job : JobId) (cmd : string)
    (pars : list (string * PyValue)) : DAG := {|
  workflow := workflow dag;
  jobs j := if decide (j = job) then with_code cmd pars (jobs dag j) else jobs dag j;
  dependencies := dependencies dag;
|}.

Ltac split3 := split; [|split].

(** * Verification *)

(** ** [sorted] and [set] *)

Lemma elem_of_py_set {A} `{EqDecision A} (l : list A) x : x ∈ py_set l ↔ x ∈ l.
Proof. apply elem_of_remove_dups. Qed.

Lemma NoDup_py_set {A} `{EqDecision A} (l : list A) : NoDup (py_set l).
Proof. apply NoDup_remove_dups. Qed.

Lemma py_set_perm {A} `{EqDecision A} (l1 l2 : list A) :
  l1 ≡ₚ l2 → py_set l1 ≡ₚ py_set l2.
Proof.
  intros Hp. apply NoDup_Permutation; [apply NoDup_py_set..|].
  intros x. by rewrite !elem_of_py_set, Hp.
Qed.

Lemma ltb_leb a b : String.ltb a b = true → String.le a b.
Proof.
  unfold String.ltb, String.le, String.leb.
  destruct (String.compare a b); naive_solver.
Qed.

Lemma not_ltb_leb a b : String.ltb a b = false → String.le b a.
Proof.
  unfold String.ltb, String.le, String.leb. rewrite (String.compare_antisym b a).
  destruct (String.compare a b); simpl; naive_solver.
Qed.

Section sorted.
Context {A : Type} (key : A → string) (lt : A → A → result bool).

Abbreviation by_key := (by_key key lt).

Lemma insert_sorted_by_key x l :
  Forall (by_key x) l → Sorted String.le (key <$> l) →
  ∃ l', insert_sorted lt x l = Ok l' ∧ l' ≡ₚ x :: l ∧
        Sorted String.le (key <$> l') ∧
        (∀ y, HdRel String.le (key y) (key <$> l) → String.le (key y) (key x) →
              HdRel String.le (key y) (key <$> l')).
Proof.
  induction l as [|y l IH]; intros Hx Hs; simpl.
  - exists [x]. split_and!; [done|done| |].
    + repeat constructor.
    + intros z _ Hz. by constructor.
  - apply Forall_cons in Hx as [Hy Hx]. rewrite Hy. simpl.
    apply Sorted_inv in Hs as [Hs Hhd].
    destruct (String.ltb (key y) (key x)) eqn:E.
    + destruct (IH Hx Hs) as (l' & -> & Hp & Hs' & Hhd'). simpl.
      exists (y :: l'). split_and!; [done| | |].
      * rewrite Hp. apply perm_swap.
      * simpl. constructor; [done|]. apply Hhd'; [done|]. by apply ltb_leb.
      * intros z Hz _. simpl. constructor. by apply HdRel_inv in Hz.
    + exists (x :: y :: l). split_and!; [done|done| |].
      * simpl. constructor; [by constructor|]. constructor. by apply not_ltb_leb.
      * intros z _ Hz. by constructor.
Qed.

Lemma sorted_by_key l :
  ForallOrdPairs by_key l →
  ∃ l', sorted lt l = Ok l' ∧ l' ≡ₚ l ∧ Sorted String.le (key <$> l').
Proof.
  induction 1 as [|x l Hx _ IH]; simpl.
  - exists []. split_and!; [done|done|]. constructor.
  - destruct IH as (s & -> & Hp & Hs). simpl.
    destruct (insert_sorted_by_key x s) as (l' & Hi & Hp' & Hs' & _); [|done|].
    + by rewrite Hp.
    + exists l'. split_and!; [done| |done]. by rewrite Hp', Hp.
Qed.
End sorted.

Lemma ForallOrdPairs_all {A} (R : A → A → Prop) l :
  (∀ x y, R x y) → ForallOrdPairs R l.
Proof.
  intros HR. induction l; constructor; [|done]. by apply Forall_forall.
Qed.

Lemma ForallOrdPairs_NoDup_fmap {A B} (f : A → B) (R : A → A → Prop) l :
  (∀ x y, f x ≠ f y → R x y) → NoDup (f <$> l) → ForallOrdPairs R l.
Proof.
  intros HR. induction l as [|x l IH]; simpl; intros Hnd; constructor.
  - apply NoDup_cons in Hnd as [Hx _]. apply Forall_forall. intros y Hy.
    apply HR. intros Heq. apply Hx. rewrite Heq.
    by apply list_elem_of_fmap_2.
  - apply IH. by apply NoDup_cons in Hnd as [_ ?].
Qed.

(** Sorting strings never raises and yields the ascending rearrangement. *)
Lemma sorted_str l :
  ∃ l', sorted str_lt l = Ok l' ∧ l' ≡ₚ l ∧ Sorted String.le l'.
Proof.
  destruct (sorted_by_key id str_lt l) as (l' & Hs & Hp & Hsorted).
  - by apply ForallOrdPairs_all.
  - exists l'. by rewrite list_fmap_id in Hsorted.
Qed.

(** ... which does not depend on the order the strings came in. *)
Lemma sorted_str_perm l1 l2 :
  l1 ≡ₚ l2 → sorted str_lt l1 = sorted str_lt l2.
Proof.
  intros Hp.
  destruct (sorted_str l1) as (s1 & -> & Hp1 & Hs1).
  destruct (sorted_str l2) as (s2 & -> & Hp2 & Hs2).
  f_equal. apply (Sorted_unique String.le); [done..|].
  by rewrite Hp1, Hp2.
Qed.

Lemma keyed_unique {A B} (f : A → B) (l1 l2 : list A) :
  NoDup (f <$> l1) → l1 ≡ₚ l2 → f <$> l1 = f <$> l2 → l1 = l2.
Proof.
  revert l2. induction l1 as [|x l1 IH]; intros [|y l2] Hnd Hp Heq;
    simplify_eq/=; [done|].
  apply NoDup_cons in Hnd as [Hx Hnd].
  assert (x = y) as ->.
  { assert (y ∈ x :: l1) as [->|Hy]%elem_of_cons by (rewrite Hp; left); [done|].
    destruct Hx. rewrite H. by apply list_elem_of_fmap_2. }
  f_equal. apply IH; [done| |done]. by apply Permutation_cons_inv in Hp.
Qed.

Section tuples.
Context `{Runtime}.

Lemma tuple_lt_by_key (x y : string * PyValue) :
  x.1 ≠ y.1 → by_key fst tuple_lt x y.
Proof.
  intros Hne. unfold by_key, tuple_lt. rewrite bool_decide_false; [done|].
  congruence.
Qed.

(** With no name twice the items come out in ascending order of name,
    and no values are compared. *)
Lemma sorted_items (l : list (string * PyValue)) :
  NoDup l.*1 →
  ∃ l', sorted tuple_lt l = Ok l' ∧ l' ≡ₚ l ∧ Sorted String.le l'.*1.
Proof.
  intros Hnd. apply sorted_by_key.
  eapply ForallOrdPairs_NoDup_fmap; [|done]. apply tuple_lt_by_key.
Qed.

Lemma sorted_items_perm (l1 l2 : list (string * PyValue)) :
  NoDup l1.*1 → l1 ≡ₚ l2 → sorted tuple_lt l1 = sorted tuple_lt l2.
Proof.
  intros Hnd Hp.
  assert (NoDup l2.*1) as Hnd2 by by rewrite <-Hp.
  destruct (sorted_items l1 Hnd) as (s1 & -> & Hp1 & Hs1).
  destruct (sorted_items l2 Hnd2) as (s2 & -> & Hp2 & Hs2).
  f_equal. apply (keyed_unique fst).
  - by rewrite Hp1.
  - by rewrite Hp1, Hp2.
  - apply (Sorted_unique String.le); [done..|]. by rewrite Hp1, Hp2, Hp.
Qed.
End tuples.

(** ** The reference digest *)

Section provenance.
Context `{Runtime}.
Variable fs : FileSystem.
Variable dag : DAG.

Abbreviation provenance := (provenance fs dag).
Abbreviation upstream := (upstream dag).

Lemma provenance_S n job d :
  provenance (S n) job = Some d ↔
  length (output (jobs dag job)) ≤ 1 ∧
  ∃ h dep_hashes h',
    hash_own fs dag job = Ok h ∧
    mapM (provenance n) (py_set (dependencies dag job).*1) = Some dep_hashes ∧
    hash_deps dep_hashes h = Ok h' ∧ d = hexdigest h'.
Proof.
  simpl. destruct (Nat.ltb_spec 1 (length (output (jobs dag job)))).
  { split; [done|]. lia. }
  destruct (hash_own fs dag job) as [h|]; cycle 1.
  { split; [done|]. by intros (_ & ? & ? & ? & [=] & _). }
  destruct (mapM _ _) as [dep_hashes|]; simpl; cycle 1.
  { split; [done|]. by intros (_ & ? & ? & ? & _ & [=] & _). }
  destruct (hash_deps dep_hashes h) as [h'|] eqn:Hd; split.
  - intros [= <-]. split; [lia|]. by exists h, dep_hashes, h'.
  - intros (_ & ? & ? & ? & [= <-] & [= <-] & Hd' & ->). congruence.
  - done.
  - intros (_ & ? & ? & ? & [= <-] & [= <-] & Hd' & ->). congruence.
Qed.

Lemma provenance_mono n m job d :
  n ≤ m → provenance n job = Some d → provenance m job = Some d.
Proof.
  revert m job d. induction n as [|n IH]; intros [|m] job d Hle; try done; [lia|].
  rewrite !provenance_S. intros (Hout & h & ds & h' & Hown & Hds & Hdeps & ->).
  split; [done|]. exists h, ds, h'. split_and!; try done.
  apply mapM_Some. apply mapM_Some in Hds.
  eapply Forall2_impl; [done|]. intros k dk Hk. apply IH; [lia|done].
Qed.

(** The digest of a job does not depend on the levels allowed. *)
Lemma provenance_fun n m job d d' :
  provenance n job = Some d → provenance m job = Some d' → d = d'.
Proof.
  intros Hn Hm.
  apply (provenance_mono n (n `max` m)) in Hn; [|lia].
  apply (provenance_mono m (n `max` m)) in Hm; [|lia]. congruence.
Qed.

Lemma provenance_upstream n j k d :
  provenance (S n) j = Some d → upstream j k → is_Some (provenance n k).
Proof.
  rewrite provenance_S. intros (_ & h & ds & h' & _ & Hds & _) Hk.
  assert (Forall (is_Some ∘ provenance n) (py_set (dependencies dag j).*1)) as Hall.
  { apply mapM_is_Some_1. by exists ds. }
  rewrite Forall_forall in Hall. apply Hall. by apply elem_of_py_set.
Qed.

Lemma provenance_rtc n j k :
  is_Some (provenance n j) → rtc upstream j k → is_Some (provenance n k).
Proof.
  intros Hj Hjk. revert n Hj. induction Hjk as [j|j x k Hjx _ IH]; intros n Hj; [done|].
  apply IH. destruct n as [|n]; [by destruct Hj|]. destruct Hj as [d Hd].
  destruct (provenance_upstream _ _ _ _ Hd Hjx) as [d' Hd'].
  exists d'. apply (provenance_mono n); [lia|done].
Qed.

(** A job that has a digest is not upstream of itself. *)
Lemma provenance_acyclic n j k :
  is_Some (provenance n j) → upstream j k → rtc upstream k j → False.
Proof.
  revert j k. induction n as [|n IH]; intros j k [d Hd] Hjk Hkj; [done|].
  destruct (provenance_upstream _ _ _ _ Hd Hjk) as [d' Hd'].
  apply (IH j k); [|done..].
  apply (provenance_rtc n k); [by exists d'|done].
Qed.
End provenance.

(** ** One activation *)

Section activation.
Context `{Runtime}.
Variable fs : FileSystem.
Variable dag : DAG.

Abbreviation run := (_get_provenance_hash fs dag).

(** Feeding the dependency digests never raises: it feeds them in
    ascending order. *)
Lemma hash_deps_ok dep_hashes h :
  ∃ s, s ≡ₚ dep_hashes ∧ Sorted String.le s ∧
    hash_deps dep_hashes h = Ok (h ++ mjoin (str_encode <$> s)).
Proof.
  unfold hash_deps. destruct (sorted_str dep_hashes) as (s & -> & Hp & Hs).
  exists s. split_and!; [done..|]. simpl. f_equal.
  clear. revert h. induction s as [|d s IH]; intros h; simpl.
  - by rewrite app_nil_r.
  - rewrite IH. unfold update. by rewrite <-app_assoc.
Qed.

Lemma run_S depth job self r self' :
  run (S depth) job self = (r, self') ↔ activation fs dag depth job self r self'.
Proof.
  cbn [_get_provenance_hash]. unfold mbind, M_bind, lookup, lift, raise, ret.
  split.
  - destruct (_hashes self !! job) as [d|] eqn:Hjob.
    { intros [= <- <-]. by constructor. }
    destruct (Nat.ltb_spec 1 (length (output (jobs dag job)))) as [Hout|Hout].
    { intros [= <- <-]. by constructor. }
    destruct (hash_own fs dag job) as [h|e] eqn:Hown; cycle 1.
    { intros [= <- <-]. by constructor. }
    destruct (for_calls _ _ self) as [[ds|e] self2] eqn:Hcalls; cycle 1.
    { intros [= <- <-]. by eapply act_dep_raises. }
    destruct (hash_deps_ok ds h) as (s & _ & _ & Hdeps).
    rewrite Hdeps. simpl. intros [= <- <-].
    by eapply (act_store _ _ _ _ _ h ds self2).
  - destruct 1 as [d Hjob|Hjob Hout|e Hjob Hout Hown|h e self2 Hjob Hout Hown Hcalls
                   |h ds self2 h' Hjob Hout Hown Hcalls Hdeps]; rewrite Hjob; try done.
    + by rewrite (proj2 (Nat.ltb_lt _ _) Hout).
    + rewrite (proj2 (Nat.ltb_ge _ _) Hout). by rewrite Hown.
    + rewrite (proj2 (Nat.ltb_ge _ _) Hout). by rewrite Hown, Hcalls.
    + rewrite (proj2 (Nat.ltb_ge _ _) Hout). by rewrite Hown, Hcalls, Hdeps.
Qed.
End activation.

(** ** How the engine grows *)

Section grows.
Lemma grows_refl P self : grows P self self.
Proof.
  split; [done|]. exists []. split_and!; [done|constructor| |].
  - intros k. split; [by intros ?%elem_of_nil|]. intros [-> [? [=]]].
  - by intros k ?%elem_of_nil.
Qed.

Lemma grows_impl (P Q : JobId → Prop) self self' :
  (∀ k, P k → Q k) → grows P self self' → grows Q self self'.
Proof.
  intros HPQ (Hsub & new & Hst & Hnd & Hnew & HP). split; [done|].
  exists new. split_and!; [done..|]. auto.
Qed.

Lemma grows_trans (P Q : JobId → Prop) s1 s2 s3 :
  grows P s1 s2 → grows Q s2 s3 → grows (λ k, P k ∨ Q k) s1 s3.
Proof.
  intros (Hsub12 & new12 & Hst12 & Hnd12 & Hnew12 & HP)
         (Hsub23 & new23 & Hst23 & Hnd23 & Hnew23 & HQ).
  split; [by etrans|]. exists (new23 ++ new12). split_and!.
  - by rewrite Hst23, Hst12, app_assoc.
  - apply NoDup_app. split_and!; [done| |done].
    intros k [Hk _]%Hnew23 [_ Hk']%Hnew12. rewrite Hk in Hk'.
    by destruct Hk'.
  - intros k. rewrite elem_of_app, Hnew23, Hnew12. split.
    + intros [[Hk2 Hk3]|[Hk1 Hk2]]; split; [|done|done|].
      * by eapply lookup_weaken_None.
      * destruct Hk2 as [d Hd]. exists d. by eapply lookup_weaken.
    + intros [Hk1 Hk3]. destruct (_hashes s2 !! k) as [d|] eqn:Hk2.
      * right. split; [done|by exists d].
      * by left.
  - intros k [Hk|Hk]%elem_of_app; auto.
Qed.

Lemma grows_store P self self' job d :
  grows P self self' → _hashes self' !! job = None → P job →
  grows P self (store job d self').2.
Proof.
  intros (Hsub & new & Hst & Hnd & Hnew & HP) Hjob HPjob. split; simpl.
  - etrans; [done|]. by apply insert_subseteq.
  - exists (job :: new). split_and!.
    + by rewrite Hst.
    + apply NoDup_cons. split; [|done].
      intros [_ Hk]%Hnew. rewrite Hjob in Hk. by destruct Hk.
    + intros k. rewrite elem_of_cons, lookup_insert, Hnew.
      case_decide as Hk; simplify_eq/=.
      * split; [|by left]. intros _. split; [|done].
        by eapply lookup_weaken_None.
      * split; [intros [?|?]; [done|auto]|]. auto.
    + intros k [->|Hk]%elem_of_cons; auto.
Qed.

Lemma grows_stores_ok P self self' :
  grows P self self' → stores_ok self → stores_ok self'.
Proof.
  intros (Hsub & new & Hst & Hnd & Hnew & _) [Hnd0 Hdom]. split.
  - rewrite Hst. apply NoDup_app. split_and!; [done| |done].
    intros k [Hk _]%Hnew Hk'%Hdom. rewrite Hk in Hk'. by destruct Hk'.
  - intros k. rewrite Hst, elem_of_app, Hdom, Hnew.
    split.
    + intros [[_ ?]|[d Hd]]; [done|]. exists d. by eapply lookup_weaken.
    + intros Hk. destruct (_hashes self !! k) eqn:Hk0; [right; eauto|by left].
Qed.
End grows.

(** ** The engine computes the reference digest *)

Section soundness.
Context `{Runtime}.
Variable fs : FileSystem.
Variable dag : DAG.

Abbreviation run := (_get_provenance_hash fs dag).
Abbreviation provenance := (provenance fs dag).
Abbreviation upstream := (upstream dag).
Abbreviation memo_ok := (memo_ok fs dag).

Abbreviation sound := (sound fs dag).

Lemma for_calls_sound f l self r self' :
  sound f → memo_ok self → for_calls f l self = (r, self') →
  memo_ok self' ∧
  grows (λ k, ∃ x, x ∈ l ∧ rtc upstream x k) self self' ∧
  ∀ ds, r = Ok ds → Forall2 (λ x d, _hashes self' !! x = Some d) l ds.
Proof.
  intros Hf. revert self r self'.
  induction l as [|x l IH]; intros self r self' Hok; simpl.
  { intros [= <- <-]. split3; [done| |intros ? [= <-]; constructor].
    eapply grows_impl; [|apply (grows_refl (λ _, False))]. done. }
  unfold mbind, M_bind.
  destruct (f x self) as [[y|e] s1] eqn:Hx;
    destruct (Hf _ _ _ _ Hok Hx) as (Hok1 & Hg1 & Hy).
  - destruct (for_calls f l s1) as [[ys|e] s2] eqn:Hl;
      destruct (IH _ _ _ Hok1 Hl) as (Hok2 & Hg2 & Hys);
      intros [= <- <-]; (split3; [done| |]).
    + eapply grows_impl; [|by eapply grows_trans].
      intros k [?|(z & ? & ?)]; [exists x|exists z];
        (split; [|done]); [by left|by right].
    + intros ds [= <-]. constructor; [|by apply Hys].
      eapply lookup_weaken; [by apply Hy|]. apply Hg2.
    + eapply grows_impl; [|by eapply grows_trans].
      intros k [?|(z & ? & ?)]; [exists x|exists z];
        (split; [|done]); [by left|by right].
    + done.
  - intros [= <- <-]. split3; [done| |done].
    eapply grows_impl; [|done]. intros k ?. exists x. split; [by left|done].
Qed.

Lemma provenance_bound l ds :
  Forall2 (λ x d, ∃ n, provenance n x = Some d) l ds →
  ∃ n, mapM (provenance n) l = Some ds.
Proof.
  induction 1 as [|x d l ds [n Hn] _ [m Hm]].
  - by exists 0.
  - exists (n `max` m). apply mapM_Some. constructor.
    + apply (provenance_mono _ _ n); [lia|done].
    + apply mapM_Some in Hm. eapply Forall2_impl; [done|].
      intros k dk Hk. apply (provenance_mono _ _ m); [lia|done].
Qed.

(** The calls for the dependencies of a job that can be hashed do not
    store a digest for the job itself. *)
Lemma deps_leave_job f job self h ds self' :
  sound f → memo_ok self → _hashes self !! job = None →
  length (output (jobs dag job)) ≤ 1 → hash_own fs dag job = Ok h →
  for_calls f (py_set (dependencies dag job).*1) self = (Ok ds, self') →
  _hashes self' !! job = None ∧
  ∃ n h', hash_deps ds h = Ok h' ∧ provenance n job = Some (hexdigest h').
Proof.
  intros Hf Hok Hjob Hout Hown Hcalls.
  destruct (for_calls_sound _ _ _ _ _ Hf Hok Hcalls) as (Hok2 & Hg & Hds).
  specialize (Hds _ eq_refl).
  destruct (hash_deps_ok ds h) as (s & _ & _ & Hdeps).
  assert (∃ n, provenance n job = Some (hexdigest (h ++ mjoin (str_encode <$> s))))
    as [n Hn].
  { destruct (provenance_bound (py_set (dependencies dag job).*1) ds) as [n Hn].
    { eapply Forall2_impl; [done|]. intros x d Hx. by apply Hok2. }
    exists (S n). apply provenance_S. split; [done|].
    by exists h, ds, (h ++ mjoin (str_encode <$> s)). }
  split; [|by exists n, (h ++ mjoin (str_encode <$> s))].
  destruct (_hashes self' !! job) as [d0|] eqn:Hjob2; [|done]. exfalso.
  destruct Hg as (_ & new & _ & _ & Hnew & Hreach).
  destruct (Hreach job) as (x & Hx & Hxj).
  { apply Hnew. split; [done|by exists d0]. }
  eapply (provenance_acyclic _ _ n job x); [by eexists| |done].
  by apply elem_of_py_set.
Qed.

Lemma run_sound depth : sound (run depth).
Proof.
  induction depth as [|depth IH]; intros job self r self' Hok.
  { intros [= <- <-]. split3; [done|apply grows_refl|done]. }
  intros Hrun%run_S.
  destruct Hrun as [d Hjob|Hjob Hout|e Hjob Hout Hown|h e self2 Hjob Hout Hown Hcalls
                   |h ds self2 h' Hjob Hout Hown Hcalls Hdeps].
  - split3; [done|apply grows_refl|by intros ? [= <-]].
  - split3; [done|apply grows_refl|done].
  - split3; [done|apply grows_refl|done].
  - destruct (for_calls_sound _ _ _ _ _ IH Hok Hcalls) as (Hok2 & Hg & _).
    split3; [done| |done]. eapply grows_impl; [|done].
    intros k (x & Hx & Hxk). eapply rtc_l; [|done]. by apply elem_of_py_set.
  - destruct (for_calls_sound _ _ _ _ _ IH Hok Hcalls) as (Hok2 & Hg & _).
    destruct (deps_leave_job _ _ _ _ _ _ IH Hok Hjob Hout Hown Hcalls)
      as (Hfresh & n & h'' & Hdeps' & Hn).
    assert (h'' = h') as -> by congruence.
    assert (grows (rtc upstream job) self self2) as Hg'.
    { eapply grows_impl; [|done].
      intros k (x & Hx & Hxk). eapply rtc_l; [|done]. by apply elem_of_py_set. }
    split3.
    + intros k d. simpl. rewrite lookup_insert. case_decide as Hk.
      * intros [= <-]. subst k. by exists n.
      * apply Hok2.
    + by apply grows_store.
    + intros d [= <-]. simpl. by rewrite lookup_insert_eq.
Qed.
End soundness.

(** ** The engine finds the reference digest *)

Section completeness.
Context `{Runtime}.
Variable fs : FileSystem.
Variable dag : DAG.

Abbreviation run := (_get_provenance_hash fs dag).
Abbreviation provenance := (provenance fs dag).
Abbreviation memo_ok := (memo_ok fs dag).

Lemma for_calls_complete depth n l ds self :
  (∀ job self d, provenance n job = Some d → memo_ok self →
                 ∃ self', run depth job self = (Ok d, self')) →
  Forall2 (λ x d, provenance n x = Some d) l ds → memo_ok self →
  ∃ self', for_calls (run depth) l self = (Ok ds, self').
Proof.
  intros IH Hall. revert self.
  induction Hall as [|x d l ds Hx _ IHl]; intros self Hok; simpl.
  { by exists self. }
  unfold mbind, M_bind.
  destruct (IH _ _ _ Hx Hok) as [s1 Hrun]. rewrite Hrun.
  destruct (run_sound fs dag depth _ _ _ _ Hok Hrun) as (Hok1 & _ & _).
  destruct (IHl _ Hok1) as [s2 ->]. by exists s2.
Qed.

Lemma run_complete n depth job self d :
  provenance n job = Some d → memo_ok self → n ≤ depth →
  ∃ self', run depth job self = (Ok d, self').
Proof.
  revert depth job self d.
  induction n as [|n IH]; intros [|depth] job self d Hd Hok Hle; try done; [lia|].
  destruct (_hashes self !! job) as [d'|] eqn:Hjob.
  { exists self. apply run_S.
    destruct (Hok _ _ Hjob) as [m Hm].
    rewrite (provenance_fun _ _ _ _ _ _ _ Hd Hm). by constructor. }
  apply provenance_S in Hd as (Hout & h & ds & h' & Hown & Hds & Hdeps & ->).
  destruct (for_calls_complete depth n (py_set (dependencies dag job).*1) ds self)
    as [self2 Hcalls]; [|by apply mapM_Some|done|].
  { intros k s dk Hk Hs. apply (IH depth k s dk Hk Hs). lia. }
  eexists. apply run_S. by eapply act_store.
Qed.
End completeness.

(** ** Iteration order *)

Lemma mapM_perm {A B} (f : A → option B) (l1 l2 : list A) ds1 :
  l1 ≡ₚ l2 → mapM f l1 = Some ds1 →
  ∃ ds2, mapM f l2 = Some ds2 ∧ ds1 ≡ₚ ds2.
Proof.
  intros Hp. revert ds1.
  induction Hp as [|x l1 l2 _ IH|x y l|l1 l2 l3 _ IH1 _ IH2]; intros ds1 Hds.
  - exists ds1. done.
  - apply mapM_Some in Hds. inversion Hds as [|? d ? ds Hx Hl]; subst.
    apply mapM_Some in Hl. destruct (IH _ Hl) as (ds2 & Hds2 & Hp2).
    exists (d :: ds2). split; [|by constructor].
    apply mapM_Some. constructor; [done|]. by apply mapM_Some.
  - apply mapM_Some in Hds.
    inversion Hds as [|? dy ? ds' Hy Hl']; subst.
    inversion Hl' as [|? dx ? ds Hx Hl]; subst.
    exists (dx :: dy :: ds). split; [|apply perm_swap].
    apply mapM_Some. by repeat constructor.
  - destruct (IH1 _ Hds) as (ds2 & Hds2 & Hp2).
    destruct (IH2 _ Hds2) as (ds3 & Hds3 & Hp3).
    exists ds3. split; [done|by etrans].
Qed.

Section order.
Context `{Runtime}.
Variable fs : FileSystem.
Variables dag1 dag2 : DAG.
Hypothesis Hwf : params_wf dag1.
Hypothesis Hequiv : dag_equiv dag1 dag2.

Lemma supplied_perm deps1 deps2 f :
  deps1 ≡ₚ deps2 → supplied deps1 f = supplied deps2 f.
Proof.
  intros Hp. unfold supplied. apply eq_true_iff_eq.
  rewrite !existsb_exists. setoid_rewrite <-list_elem_of_In.
  by setoid_rewrite Hp.
Qed.

Lemma hash_input_perm J deps1 deps2 h :
  deps1 ≡ₚ deps2 → hash_input fs J deps1 h = hash_input fs J deps2 h.
Proof.
  intros Hp. unfold hash_input. revert h.
  induction (input J) as [|f l IH]; intros h; simpl; [done|].
  rewrite (supplied_perm _ _ f Hp).
  destruct (if negb _ then _ else _) as [h'|]; simpl; [apply IH|done].
Qed.

Lemma hash_own_equiv job : hash_own fs dag1 job = hash_own fs dag2 job.
Proof.
  destruct Hequiv as (Hw & Hjobs & Hdeps).
  destruct (Hjobs job) as (Hout & Hin & Hpar & Hrule & Hsh & Hsc & Hwr & Hce & Hsi).
  unfold hash_own.
  assert (∀ h, hash_code dag1 (jobs dag1 job) h = hash_code dag2 (jobs dag2 job) h)
    as -> by (intros h; unfold hash_code; by rewrite Hw, Hrule, Hsh, Hsc, Hwr).
  assert (∀ h, hash_params (jobs dag1 job) h = hash_params (jobs dag2 job) h)
    as -> by (intros h; unfold hash_params;
              by rewrite (sorted_items_perm _ _ (Hwf job) Hpar)).
  destruct (hash_params _ _) as [h|]; simpl; [|done].
  assert (∀ h, hash_input fs (jobs dag1 job) (dependencies dag1 job) h
             = hash_input fs (jobs dag2 job) (dependencies dag2 job) h)
    as -> by (intros h'; rewrite (hash_input_perm _ _ _ _ (Hdeps job));
              unfold hash_input; by rewrite Hin).
  destruct (hash_input _ _ _ _) as [h'|]; simpl; [|done].
  unfold hash_env. by rewrite Hw, Hce, Hsi.
Qed.

(** The reference digest is blind to iteration order. *)
Lemma provenance_equiv n job :
  provenance fs dag1 n job = provenance fs dag2 n job.
Proof.
  revert job. induction n as [|n IH]; intros job; [done|]. simpl.
  destruct Hequiv as (Hw & Hjobs & Hdeps).
  destruct (Hjobs job) as (Hout & _). rewrite <-Hout, <-hash_own_equiv.
  destruct (1 <? _); [done|]. destruct (hash_own fs dag1 job) as [h|]; [|done].
  assert (py_set (dependencies dag1 job).*1 ≡ₚ py_set (dependencies dag2 job).*1)
    as Hp by (apply py_set_perm; by rewrite (Hdeps job)).
  rewrite <-(mapM_ext _ _ _ IH).
  destruct (mapM (provenance fs dag1 n) (py_set (dependencies dag1 job).*1))
    as [ds1|] eqn:H1.
  - destruct (mapM_perm _ _ _ _ Hp H1) as (ds2 & -> & Hds). simpl.
    unfold hash_deps. by rewrite (sorted_str_perm _ _ Hds).
  - destruct (mapM (provenance fs dag1 n) (py_set (dependencies dag2 job).*1))
      as [ds2|] eqn:H2; [|done].
    symmetry in Hp. destruct (mapM_perm _ _ _ _ Hp H2) as (? & ? & _).
    congruence.
Qed.
End order.

(** ** The public method *)

Section public.
Context `{Runtime}.
Variable fs : FileSystem.

(** The outer digest of an inner one. *)
Lemma get_provenance_hash_as_run dag version depth job self :
  get_provenance_hash_as fs dag version depth job self =
  (match (_get_provenance_hash fs dag depth job self).1 with
   | Ok d => Ok (sha256_hexdigest (str_encode d ++ str_encode version))
   | Raise e => Raise e
   end, (_get_provenance_hash fs dag depth job self).2).
Proof.
  unfold get_provenance_hash_as, mbind, M_bind.
  by destruct (_get_provenance_hash fs dag depth job self) as [[d|e] self'].
Qed.

Lemma get_provenance_hash_as_Ok dag version depth job self d self' :
  get_provenance_hash_as fs dag version depth job self = (Ok d, self') ↔
  ∃ d0, _get_provenance_hash fs dag depth job self = (Ok d0, self') ∧
        d = sha256_hexdigest (str_encode d0 ++ str_encode version).
Proof.
  rewrite get_provenance_hash_as_run.
  destruct (_get_provenance_hash fs dag depth job self) as [[d0|e] s]; simpl; split.
  - intros [= <- <-]. by exists d0.
  - by intros (? & [= <- <-] & ->).
  - done.
  - by intros (? & [=] & _).
Qed.

Lemma memo_ok_equiv dag dag' self :
  params_wf dag → dag_equiv dag dag' → memo_ok fs dag self → memo_ok fs dag' self.
Proof.
  intros Hwf Heq Hok j d [n Hn]%Hok. exists n.
  by rewrite <-(provenance_equiv fs dag dag' Hwf Heq).
Qed.

Lemma memo_ok_equiv_inv dag dag' self :
  params_wf dag → dag_equiv dag dag' → memo_ok fs dag' self → memo_ok fs dag self.
Proof.
  intros Hwf Heq Hok j d [n Hn]%Hok. exists n.
  by rewrite (provenance_equiv fs dag dag' Hwf Heq).
Qed.

Lemma init_ok dag : memo_ok fs dag __init__ ∧ stores_ok __init__.
Proof.
  split; [by intros j d|]. split; [constructor|].
  intros j. simpl. rewrite lookup_empty. split; [by intros ?%elem_of_nil|].
  by intros [? [=]].
Qed.

(** Every engine one can meet holds digests of the graph only, each stored
    one time. *)
Lemma served_ok dag self :
  params_wf dag → served fs dag self → memo_ok fs dag self ∧ stores_ok self.
Proof.
  intros Hwf.
  induction 1 as [|dag' version depth job self r self' _ [IHm IHs] Heq Hcall].
  { apply init_ok. }
  rewrite get_provenance_hash_as_run in Hcall.
  destruct (_get_provenance_hash fs dag' depth job self) as [r0 s] eqn:Hrun.
  simpl in Hcall. injection Hcall as _ <-.
  destruct (run_sound fs dag' depth job self r0 s) as (Hok & Hg & _); [|done|].
  { by apply (memo_ok_equiv dag). }
  split; [by apply (memo_ok_equiv_inv dag dag')|by eapply grows_stores_ok].
Qed.
End public.

Lemma dag_equiv_refl `{Runtime} (dag : DAG) : dag_equiv dag dag.
Proof. by repeat split. Qed.

(** The example graphs are well formed and differ in iteration order only. *)
Lemma diamond_wf : params_wf diamond.
Proof.
  intros j. do 7 (destruct j as [|j]; [simpl; by apply (bool_decide_unpack _)|]).
  constructor.
Qed.

Lemma diamond_equiv : dag_equiv diamond diamond'.
Proof.
  split; [done|]. split; intros j.
  - unfold job_equiv. do 2 (destruct j as [|j]; [by split_and!|]).
    destruct j as [|j]; [|by split_and!]. simpl.
    split_and!; try done. apply perm_swap.
  - do 4 (destruct j as [|j]; try done). apply perm_swap.
Qed.

(** C1 (determinism).  On one graph, file contents and parameter values, a
    digest returned by [get_provenance_hash] for a job is the digest every
    call returns for it: by the same engine later, by any other engine, new
    or used, with the params and dependencies mappings iterated in any order
    and with any stack depth; and with enough stack every such call does
    return it. *)
Theorem get_provenance_hash_deterministic `{Runtime} (fs : FileSystem)
    (dag dag1 dag2 : DAG) (self1 self2 : ProvenanceHashMap)
    (depth1 : nat) (job : JobId) (d : string) (self1' : ProvenanceHashMap) :
  params_wf dag → dag_equiv dag dag1 → dag_equiv dag dag2 →
  served fs dag self1 → served fs dag self2 →
  get_provenance_hash fs dag1 depth1 job self1 = (Ok d, self1') →
  (∀ depth2 d2 self2',
     get_provenance_hash fs dag2 depth2 job self2 = (Ok d2, self2') → d2 = d) ∧
  (∃ n, ∀ depth2, n ≤ depth2 →
     ∃ self2', get_provenance_hash fs dag2 depth2 job self2 = (Ok d, self2')).
Proof.
  intros Hwf Heq1 Heq2 Hs1 Hs2 Hcall.
  apply get_provenance_hash_as_Ok in Hcall as (d0 & Hrun & ->).
  destruct (served_ok fs dag self1 Hwf Hs1) as [Hok1 _].
  destruct (served_ok fs dag self2 Hwf Hs2) as [Hok2 _].
  apply (memo_ok_equiv fs dag dag1) in Hok1; [|done..].
  apply (memo_ok_equiv fs dag dag2) in Hok2; [|done..].
  destruct (run_sound fs dag1 depth1 job self1 _ _ Hok1 Hrun) as (Hok1' & _ & Hd0).
  destruct (Hok1' job d0 (Hd0 d0 eq_refl)) as [n Hn].
  rewrite <-(provenance_equiv fs dag dag1 Hwf Heq1) in Hn.
  rewrite (provenance_equiv fs dag dag2 Hwf Heq2) in Hn.
  split.
  - intros depth2 d2 self2' (d2' & Hrun2 & ->)%get_provenance_hash_as_Ok.
    destruct (run_sound fs dag2 depth2 job self2 _ _ Hok2 Hrun2) as (Hok2' & _ & Hd2).
    destruct (Hok2' job d2' (Hd2 d2' eq_refl)) as [m Hm].
    by rewrite (provenance_fun fs dag2 _ _ _ _ _ Hm Hn).
  - exists n. intros depth2 Hle.
    destruct (run_complete fs dag2 n depth2 job self2 d0 Hn Hok2 Hle) as [self2' Hrun2].
    exists self2'. apply get_provenance_hash_as_Ok. by exists d0.
Qed.

Lemma get_provenance_hash_deterministic_witness :
  let warm := (get_provenance_hash disk diamond 5 1 __init__).2 in
  let d := "85c3188dfd4bde78df1ee41fc9e3cd01386414fb070c4dad1391d458a06679dd" in
  (∀ depth2 d2 self2',
     get_provenance_hash disk diamond' depth2 3 warm = (Ok d2, self2') → d2 = d) ∧
  (∃ n, ∀ depth2, n ≤ depth2 →
     ∃ self2', get_provenance_hash disk diamond' depth2 3 warm = (Ok d, self2')).
Proof.
  apply (get_provenance_hash_deterministic disk diamond diamond diamond'
           __init__ _ 10 3 _ (get_provenance_hash disk diamond 10 3 __init__).2).
  - apply diamond_wf.
  - apply dag_equiv_refl.
  - apply diamond_equiv.
  - apply served_new.
  - eapply served_call; [apply served_new|apply dag_equiv_refl|].
    apply surjective_pairing.
  - by vm_compute.
Defined.

Lemma str_encode_inj a b : str_encode a = str_encode b → a = b.
Proof.
  intros Heq. apply (f_equal String.string_of_list_byte) in Heq.
  unfold str_encode in Heq. by rewrite !String.string_of_list_byte_of_string in Heq.
Qed.

(** C2 (two layers, versioning).  The digest [get_provenance_hash] returns
    is the SHA-256 hex digest of the hex text of the digest
    [_get_provenance_hash] returns followed by the version tag; with another
    tag and nothing else changed the call returns a digest too, and the two
    are equal only if the two messages are a collision of SHA-256. *)
Theorem get_provenance_hash_versioned `{Runtime} (fs : FileSystem) (dag : DAG)
    (depth : nat) (job : JobId) (self self' : ProvenanceHashMap) (d : string) :
  get_provenance_hash fs dag depth job self = (Ok d, self') →
  ∃ d0,
    _get_provenance_hash fs dag depth job self = (Ok d0, self') ∧
    d = sha256_hexdigest (str_encode d0 ++ str_encode __version__) ∧
    ∀ version, version ≠ __version__ →
      ∃ d', get_provenance_hash_as fs dag version depth job self = (Ok d', self') ∧
        (d' = d →
         ∃ m m', m ≠ m' ∧ sha256_hexdigest m = sha256_hexdigest m').
Proof.
  intros (d0 & Hrun & ->)%get_provenance_hash_as_Ok.
  exists d0. split_and!; [done..|]. intros version Hv.
  exists (sha256_hexdigest (str_encode d0 ++ str_encode version)). split.
  - apply get_provenance_hash_as_Ok. by exists d0.
  - intros Heq. eexists _, _. split; [|exact Heq].
    intros Hm%app_inv_head%str_encode_inj. done.
Qed.

Lemma get_provenance_hash_versioned_witness :
  ∃ d0,
    _get_provenance_hash disk diamond 10 3 __init__
      = (Ok d0, (get_provenance_hash disk diamond 10 3 __init__).2) ∧
    "85c3188dfd4bde78df1ee41fc9e3cd01386414fb070c4dad1391d458a06679dd"
      = SHA256.hexdigest (str_encode d0 ++ str_encode __version__) ∧
    ∀ version, version ≠ __version__ →
      ∃ d', get_provenance_hash_as disk diamond version 10 3 __init__
              = (Ok d', (get_provenance_hash disk diamond 10 3 __init__).2) ∧
        (d' = "85c3188dfd4bde78df1ee41fc9e3cd01386414fb070c4dad1391d458a06679dd" →
         ∃ m m', m ≠ m' ∧ SHA256.hexdigest m = SHA256.hexdigest m').
Proof.
  apply (get_provenance_hash_versioned (H := py) disk diamond 10 3 __init__).
  by vm_compute.
Defined.



(** C6 (environment descriptor).  What the job's environment feeds into the
    accumulator is exactly the documented four-way choice: container
    reference then environment content when the environment is in use and
    its container is too; the environment content alone; the job's own
    container reference alone; or nothing. *)
Theorem hash_env_four_way `{Runtime} (dag : DAG) (job : Job) (h : sha256) :
  hash_env dag job h = h ++ env_descriptor (workflow dag) job.
Proof.
  unfold hash_env, env_descriptor, py_and, update.
  destruct (use_conda (workflow dag)), (conda_env job) as [env|]; simpl;
    destruct (use_singularity (workflow dag)); simpl;
    repeat match goal with |- context [truthy ?x] => destruct (truthy x) end;
    simpl; by rewrite ?app_nil_r, <-?app_assoc.
Qed.

(** ** Input files *)

Lemma supplied_union deps f : supplied deps f = true ↔ f ∈ mjoin deps.*2.
Proof.
  unfold supplied. rewrite existsb_exists, list_elem_of_join. split.
  - intros (files & Hin%list_elem_of_In & Hf%bool_decide_eq_true). eauto.
  - intros (files & Hf & Hin). exists files.
    split; [by apply list_elem_of_In|by apply bool_decide_eq_true].
Qed.

(** The mode the source passes to [open] is refused whatever the file. *)
Lemma open_b fs f :
  open_ fs f "b" = Raise (ValueError
    "Must have exactly one of create/read/write/append mode and at most one plus").
Proof. reflexivity. Qed.

(** Opened for reading, a file is fed whole, in blocks of 4096 bytes. *)
Lemma read_blocks_all n content h :
  length content < n →
  read_blocks n {| readable := true; data := content |} h = Ok (h ++ content).
Proof.
  revert content h. induction n as [|n IH]; intros content h Hn; [lia|].
  simpl. destruct (take 4096 content) as [|b block] eqn:Hblock.
  - destruct content; [|done]. by rewrite app_nil_r.
  - rewrite IH.
    + unfold update. by rewrite <-app_assoc, <-Hblock, take_drop.
    + rewrite length_drop. destruct content; [done|]. simpl in *. lia.
Qed.

Lemma hash_file_all content h :
  hash_file {| readable := true; data := content |} h = Ok (h ++ content).
Proof. apply read_blocks_all. simpl. lia. Qed.

Lemma open_rb fs f content :
  fs f = Some content →
  open_ fs f "rb" = Ok {| readable := true; data := content |}.
Proof. intros Hf. unfold open_. simpl. by rewrite Hf. Qed.

Section inputs.
Context `{Runtime}.

(** Inputs supplied by an upstream job are passed over. *)
Lemma hash_input_filter fs (job : Job) deps h :
  hash_input fs job deps h =
  for_each (λ h f, f ← open_ fs f "b"; hash_file f h) h
    (filter (λ f, f ∉ mjoin deps.*2) (input job)).
Proof.
  unfold hash_input. revert h.
  induction (input job) as [|f l IH]; intros h; [done|].
  rewrite filter_cons. cbn [for_each]. destruct (supplied deps f) eqn:Hf.
  - apply supplied_union in Hf. rewrite decide_False by auto. apply IH.
  - rewrite decide_True; cycle 1.
    { rewrite <-supplied_union. by rewrite Hf. }
    cbn [for_each negb]. generalize (open_ fs f "b"). intros [fo|e]; [|done].
    cbn [mbind result_bind]. destruct (hash_file fo h); [apply IH|done].
Qed.

(** An input no upstream job supplies makes the job unhashable. *)
Lemma hash_input_external fs (job : Job) deps h f :
  f ∈ input job → f ∉ mjoin deps.*2 →
  hash_input fs job deps h = Raise (ValueError
    "Must have exactly one of create/read/write/append mode and at most one plus").
Proof.
  intros Hin Hf. rewrite hash_input_filter.
  assert (f ∈ filter (λ f, f ∉ mjoin deps.*2) (input job)) as Hin'
    by by apply list_elem_of_filter.
  destruct (filter _ _) as [|g l]; [by apply elem_of_nil in Hin'|done].
Qed.
End inputs.

Lemma open_ext fs fs' f mode : fs f = fs' f → open_ fs f mode = open_ fs' f mode.
Proof. intros Hf. unfold open_. by rewrite Hf. Qed.

(** C4 (internal inputs).  An input that an upstream job supplies (it is in
    the union of the file sets of the job's dependencies) is passed over by
    the input loop: it is not opened and feeds nothing; so what the job
    itself feeds into its accumulator is the same on two file systems that
    differ in such files only. *)
Theorem internal_inputs_not_read `{Runtime} (fs fs' : FileSystem) (dag : DAG)
    (job : JobId) (h : sha256) :
  (∀ f, f ∉ mjoin (dependencies dag job).*2 → fs f = fs' f) →
  hash_input fs (jobs dag job) (dependencies dag job) h
    = for_each (λ h f, f ← open_ fs f "b"; hash_file f h) h
        (filter (λ f, f ∉ mjoin (dependencies dag job).*2) (input (jobs dag job))) ∧
  hash_input fs (jobs dag job) (dependencies dag job) h
    = hash_input fs' (jobs dag job) (dependencies dag job) h ∧
  hash_own fs dag job = hash_own fs' dag job.
Proof.
  intros Hfs.
  assert (∀ h, hash_input fs (jobs dag job) (dependencies dag job) h
               = hash_input fs' (jobs dag job) (dependencies dag job) h) as Hin.
  { intros h'. rewrite !hash_input_filter.
    assert (Forall (λ f, f ∉ mjoin (dependencies dag job).*2)
              (filter (λ f, f ∉ mjoin (dependencies dag job).*2)
                 (input (jobs dag job)))) as Hall.
    { apply Forall_forall. by intros f [? _]%list_elem_of_filter. }
    revert h'. induction Hall as [|f l Hf _ IH]; intros h'; [done|].
    cbn [for_each]. rewrite (open_ext fs fs' f "b" (Hfs f Hf)).
    generalize (open_ fs' f "b"). intros [fo|e]; [|done].
    cbn [mbind result_bind]. destruct (hash_file fo h'); [apply IH|done]. }
  split_and!; [apply hash_input_filter|apply Hin|].
  unfold hash_own. destruct (hash_params _ _) as [h'|]; [|done].
  cbn [mbind result_bind]. by rewrite Hin.
Qed.

Lemma internal_inputs_not_read_witness :
  let disk' : FileSystem :=
    λ f, if bool_decide (f = "b.txt") then Some (str_encode "changed") else disk f in
  hash_input disk (jobs diamond 3) (dependencies diamond 3) []
    = for_each (λ h f, f ← open_ disk f "b"; hash_file f h) []
        (filter (λ f, f ∉ mjoin (dependencies diamond 3).*2) (input (jobs diamond 3))) ∧
  hash_input disk (jobs diamond 3) (dependencies diamond 3) []
    = hash_input disk' (jobs diamond 3) (dependencies diamond 3) [] ∧
  hash_own disk diamond 3 = hash_own disk' diamond 3.
Proof.
  intros disk'.
  apply (internal_inputs_not_read (H := py) disk disk' diamond 3 []).
  intros f Hf. unfold disk'. rewrite bool_decide_false; [done|].
  intros ->. apply Hf. simpl. set_solver.
Defined.

(** C8, as the code has it.  The job reading [data.txt], a file that exists
    and that no job supplies, gets no digest: [open] refuses the mode before
    looking at the file, nothing is read and nothing stored. *)
Theorem external_input_unhashable :
  disk "data.txt" = Some (str_encode "abc") ∧
  input (jobs diamond 4) = ["data.txt"] ∧ dependencies diamond 4 = [] ∧
  open_ disk "data.txt" "b" = Raise (ValueError
    "Must have exactly one of create/read/write/append mode and at most one plus") ∧
  get_provenance_hash disk diamond 10 4 __init__ = (Raise (ValueError
    "Must have exactly one of create/read/write/append mode and at most one plus"),
    __init__) ∧
  (open_ disk "data.txt" "rb" ≫= λ f, hash_file f []) = Ok (str_encode "abc").
Proof. by vm_compute. Qed.

(** ** Parameters *)

Lemma for_each_ext {A X} (f g : X → A → result X) h l :
  (∀ h x, f h x = g h x) → for_each f h l = for_each g h l.
Proof.
  intros Hfg. revert h. induction l as [|x l IH]; intros h; simpl; [done|].
  rewrite Hfg. destruct (g h x); simpl; auto.
Qed.

Section params.
Context `{Runtime}.

Lemma feed_items_Ok items ss h :
  Forall2 (λ item s, json_dumps item.2 = Ok s) items ss →
  for_each feed_item h items
    = Ok (h ++ mjoin (zip_with (λ item s, str_encode item.1 ++ str_encode s)
                        items ss)).
Proof.
  intros Hall. revert h. induction Hall as [|item s items ss Hs _ IH]; intros h.
  - simpl. by rewrite app_nil_r.
  - cbn [for_each].
    assert (feed_item h item = Ok (h ++ str_encode item.1 ++ str_encode s)) as ->
      by (unfold feed_item; by rewrite Hs).
    cbn [mbind result_bind]. rewrite IH. simpl. by rewrite <-!app_assoc.
Qed.

Lemma feed_items_Raise items h :
  Exists (λ item, ∃ e, json_dumps item.2 = Raise e) items →
  ∃ item e, item ∈ items ∧ json_dumps item.2 = Raise e ∧
            for_each feed_item h items = Raise e.
Proof.
  intros Hex. revert h. induction items as [|item items IH]; intros h.
  { by apply Exists_nil in Hex. }
  cbn [for_each].
  destruct (json_dumps item.2) as [s|e] eqn:Hs.
  - assert (feed_item h item = Ok (h ++ str_encode item.1 ++ str_encode s)) as ->
      by (unfold feed_item; by rewrite Hs).
    cbn [mbind result_bind].
    apply Exists_cons in Hex as [[e He]|Hex]; [congruence|].
    destruct (IH Hex (h ++ str_encode item.1 ++ str_encode s))
      as (i & e & Hi & He & Hr).
    exists i, e. split_and!; [by right|done..].
  - assert (feed_item h item = Raise e) as ->
      by (unfold feed_item; by rewrite Hs).
    exists item, e. split_and!; [by left|done..].
Qed.

Lemma feed_items_Raise_inv items h e :
  for_each feed_item h items = Raise e →
  ∃ item, item ∈ items ∧ json_dumps item.2 = Raise e.
Proof.
  revert h. induction items as [|item items IH]; intros h; [done|].
  cbn [for_each].
  destruct (json_dumps item.2) as [s|e'] eqn:Hs.
  - assert (feed_item h item = Ok (h ++ str_encode item.1 ++ str_encode s)) as ->
      by (unfold feed_item; by rewrite Hs).
    cbn [mbind result_bind].
    intros (i & Hi & He)%IH. exists i. split; [by right|done].
  - assert (feed_item h item = Raise e') as ->
      by (unfold feed_item; by rewrite Hs).
    intros [= ->]. exists item. split; [by left|done].
Qed.

Lemma hash_params_feed (job : Job) items h :
  sorted tuple_lt (params job) = Ok items →
  hash_params job h = for_each feed_item h items.
Proof.
  intros Hs. unfold hash_params. rewrite Hs. simpl. apply for_each_ext.
  intros h' [key value]. unfold feed_item, update. simpl.
  destruct (json_dumps value); simpl; [|done]. by rewrite <-app_assoc.
Qed.
End params.



(** C5 (upstream provenance).  When a job is hashed, [_get_provenance_hash]
    is called one time for each distinct upstream job (the keys of its
    dependencies, without repetition), each call yields that job's
    unversioned digest, and the digests are fed in ascending order; so the
    bytes fed are the same in whatever order the dependencies are met. *)
Theorem upstream_digests_sorted `{Runtime} (fs : FileSystem) (dag : DAG)
    (depth : nat) (job : JobId) (self self' : ProvenanceHashMap) (d : string) :
  params_wf dag → served fs dag self →
  _hashes self !! job = None →
  _get_provenance_hash fs dag (S depth) job self = (Ok d, self') →
  let ups := py_set (dependencies dag job).*1 in
  NoDup ups ∧ (∀ k, k ∈ ups ↔ upstream dag job k) ∧
  ∃ h dep_hashes self0 s,
    hash_own fs dag job = Ok h ∧
    for_calls (_get_provenance_hash fs dag depth) ups self = (Ok dep_hashes, self0) ∧
    Forall2 (λ k dk, _hashes self' !! k = Some dk ∧
                     ∃ n, provenance fs dag n k = Some dk) ups dep_hashes ∧
    s ≡ₚ dep_hashes ∧ Sorted String.le s ∧
    d = sha256_hexdigest (h ++ mjoin (str_encode <$> s)) ∧
    ∀ dep_hashes', dep_hashes' ≡ₚ dep_hashes →
      hash_deps dep_hashes' h = hash_deps dep_hashes h.
Proof.
  intros Hwf Hserved Hjob Hrun ups.
  destruct (served_ok fs dag self Hwf Hserved) as [Hok _].
  split_and!; [apply NoDup_py_set|intros k; apply elem_of_py_set|].
  destruct (run_sound fs dag (S depth) job self _ _ Hok Hrun) as (Hok' & _ & _).
  apply run_S in Hrun.
  inversion Hrun as [d' Hhit| | | |h ds self0 h' _ Hout Hown Hcalls Hdeps]; subst.
  { congruence. }
  destruct (for_calls_sound fs dag _ _ _ _ _ (run_sound fs dag depth) Hok Hcalls)
    as (Hok0 & _ & Hds).
  specialize (Hds _ eq_refl).
  destruct (hash_deps_ok ds h) as (s & Hp & Hs & Hdeps').
  exists h, ds, self0, s. split_and!; [done..| |done|done| |].
  - eapply Forall2_impl; [done|]. intros k dk Hk. simpl in Hk.
    assert (_hashes (store job (hexdigest h') self0).2 !! k = Some dk) as Hk'.
    { eapply lookup_weaken; [done|]. simpl. apply insert_subseteq.
      by destruct (deps_leave_job fs dag _ _ _ _ _ _ (run_sound fs dag depth)
                     Hok Hjob Hout Hown Hcalls) as [? _]. }
    split; [done|]. by apply Hok'.
  - rewrite Hdeps' in Hdeps. by injection Hdeps as <-.
  - intros ds' Hp'. unfold hash_deps. by rewrite (sorted_str_perm _ _ Hp').
Qed.

Lemma upstream_digests_sorted_witness :
  let self' := (_get_provenance_hash disk diamond 10 3 __init__).2 in
  let d := "ad54bcd5d75be714f868d82eab5dce55ec515bb4fd7bc795272ead67b6f8a0e4" in
  let ups := py_set (dependencies diamond 3).*1 in
  NoDup ups ∧ (∀ k, k ∈ ups ↔ upstream diamond 3 k) ∧
  ∃ h dep_hashes self0 s,
    hash_own disk diamond 3 = Ok h ∧
    for_calls (_get_provenance_hash disk diamond 9) ups __init__
      = (Ok dep_hashes, self0) ∧
    Forall2 (λ k dk, _hashes self' !! k = Some dk ∧
                     ∃ n, provenance disk diamond n k = Some dk) ups dep_hashes ∧
    s ≡ₚ dep_hashes ∧ Sorted String.le s ∧
    d = SHA256.hexdigest (h ++ mjoin (str_encode <$> s)) ∧
    ∀ dep_hashes', dep_hashes' ≡ₚ dep_hashes →
      hash_deps dep_hashes' h = hash_deps dep_hashes h.
Proof.
  apply (upstream_digests_sorted (H := py) disk diamond 9 3 __init__).
  - apply diamond_wf.
  - apply served_new.
  - reflexivity.
  - by vm_compute.
Defined.



(** In the diamond the shared ancestor (job 0) is stored one time, by the
    first of its dependents, and read by the second. *)
Example diamond_stores :
  stores (_get_provenance_hash disk diamond 10 3 __init__).2 = [3; 2; 1; 0] ∧
  stores (get_provenance_hash disk diamond 5 1 __init__).2 = [1; 0] ∧
  stores (_get_provenance_hash disk diamond 10 3
            (get_provenance_hash disk diamond 5 1 __init__).2).2 = [3; 2; 1; 0].
Proof. by vm_compute. Qed.

(** C10 (the dictionary holds unversioned digests).  In every engine one
    can meet, whatever version tags its callers used, each stored value is
    the unversioned digest of its job; the public method leaves the engine
    exactly as the inner method does, for every version tag; and for a job
    with a stored digest it computes the outer digest from the stored one
    again, storing nothing. *)
Theorem memo_holds_inner_digests `{Runtime} (fs : FileSystem) (dag : DAG)
    (self : ProvenanceHashMap) (version : string) (depth : nat) (job : JobId) :
  params_wf dag → served fs dag self →
  (∀ j d, _hashes self !! j = Some d → ∃ n, provenance fs dag n j = Some d) ∧
  (get_provenance_hash_as fs dag version depth job self).2
    = (_get_provenance_hash fs dag depth job self).2 ∧
  (∀ version', (get_provenance_hash_as fs dag version' depth job self).2
               = (get_provenance_hash_as fs dag version depth job self).2) ∧
  (∀ d0, _hashes self !! job = Some d0 →
     get_provenance_hash_as fs dag version (S depth) job self
     = (Ok (sha256_hexdigest (str_encode d0 ++ str_encode version)), self)).
Proof.
  intros Hwf Hserved. destruct (served_ok fs dag self Hwf Hserved) as [Hok _].
  split_and!; [done| | |].
  - by rewrite get_provenance_hash_as_run.
  - intros version'. by rewrite !get_provenance_hash_as_run.
  - intros d0 Hjob. rewrite get_provenance_hash_as_run.
    assert (_get_provenance_hash fs dag (S depth) job self = (Ok d0, self)) as ->
      by (apply run_S; by constructor).
    done.
Qed.

Lemma memo_holds_inner_digests_witness :
  let warm := (get_provenance_hash_as disk diamond "0.2" 5 1 __init__).2 in
  (∀ j d, _hashes warm !! j = Some d → ∃ n, provenance disk diamond n j = Some d) ∧
  (get_provenance_hash_as disk diamond "0.1" 3 1 warm).2
    = (_get_provenance_hash disk diamond 3 1 warm).2 ∧
  (∀ version', (get_provenance_hash_as disk diamond version' 3 1 warm).2
               = (get_provenance_hash_as disk diamond "0.1" 3 1 warm).2) ∧
  (∀ d0, _hashes warm !! 1 = Some d0 →
     get_provenance_hash_as disk diamond "0.1" 3 1 warm
     = (Ok (SHA256.hexdigest (str_encode d0 ++ str_encode "0.1")), warm)).
Proof.
  apply (memo_holds_inner_digests (H := py) disk diamond _ "0.1" 2 1).
  - apply diamond_wf.
  - eapply served_call; [apply served_new|apply dag_equiv_refl|].
    apply surjective_pairing.
Defined.

(** * Further properties *)

(** ** The dictionary is closed under dependencies *)

Section closed.
Context `{Runtime}.
Variable fs : FileSystem.
Variable dag : DAG.

Abbreviation run := (_get_provenance_hash fs dag).
Abbreviation memo_ok := (memo_ok fs dag).

Lemma for_calls_closed f l self r self' :
  sound fs dag f →
  (∀ job self r self', memo_ok self → closed dag self →
     f job self = (r, self') → closed dag self') →
  memo_ok self → closed dag self → for_calls f l self = (r, self') →
  closed dag self'.
Proof.
  intros Hf Hc. revert self r self'.
  induction l as [|x l IH]; intros self r self' Hok Hcl; simpl.
  { by intros [= <- <-]. }
  unfold mbind, M_bind.
  destruct (f x self) as [[y|e] s1] eqn:Hx.
  - destruct (Hf _ _ _ _ Hok Hx) as (Hok1 & _ & _).
    pose proof (Hc _ _ _ _ Hok Hcl Hx) as Hcl1.
    destruct (for_calls f l s1) as [[ys|e] s2] eqn:Hl; intros [= <- <-];
      by eapply IH.
  - intros [= <- <-]. by eapply Hc.
Qed.

Lemma run_closed depth job self r self' :
  memo_ok self → closed dag self → run depth job self = (r, self') →
  closed dag self'.
Proof.
  revert job self r self'.
  induction depth as [|depth IH]; intros job self r self' Hok Hcl.
  { by intros [= <- <-]. }
  intros Hrun%run_S.
  destruct Hrun as [d Hjob|Hjob Hout|e Hjob Hout Hown|h e self2 Hjob Hout Hown Hcalls
                   |h ds self2 h' Hjob Hout Hown Hcalls Hdeps]; try done.
  - by eapply for_calls_closed; [apply run_sound|apply IH|..].
  - assert (closed dag self2) as Hcl2
      by by eapply for_calls_closed; [apply run_sound|apply IH|..].
    destruct (for_calls_sound fs dag _ _ _ _ _ (run_sound fs dag depth) Hok Hcalls)
      as (_ & _ & Hds).
    specialize (Hds _ eq_refl).
    intros j k Hj Hjk. simpl in *.
    destruct (decide (job = k)) as [->|Hk].
    { rewrite lookup_insert_eq. by eexists. }
    rewrite lookup_insert_ne by done.
    destruct (decide (job = j)) as [->|Hjj].
    + apply elem_of_py_set in Hjk.
      apply list_elem_of_lookup in Hjk as [i Hi].
      destruct (Forall2_lookup_l _ _ _ _ _ Hds Hi) as (dk & _ & Hdk).
      by exists dk.
    + rewrite lookup_insert_ne in Hj by done. by eapply Hcl2.
Qed.
End closed.

Lemma upstream_equiv `{Runtime} (dag dag' : DAG) j k :
  dag_equiv dag dag' → upstream dag j k ↔ upstream dag' j k.
Proof. intros (_ & _ & Hdeps). unfold upstream. by rewrite (Hdeps j). Qed.

Lemma served_closed `{Runtime} fs (dag : DAG) self :
  params_wf dag → served fs dag self → closed dag self.
Proof.
  intros Hwf Hserved.
  induction Hserved as [|dag' version depth job self r self' Hs IH Heq Hcall].
  { intros j k [? Hj]. simpl in Hj. by rewrite lookup_empty in Hj. }
  rewrite get_provenance_hash_as_run in Hcall.
  destruct (_get_provenance_hash fs dag' depth job self) as [r0 s] eqn:Hrun.
  simpl in Hcall. injection Hcall as _ <-.
  destruct (served_ok fs dag self Hwf Hs) as [Hok _].
  assert (closed dag' s) as Hcl.
  { eapply run_closed; [by eapply memo_ok_equiv| |done].
    intros j k Hj Hjk. eapply IH; [done|]. by eapply upstream_equiv. }
  intros j k Hj Hjk. eapply Hcl; [done|]. by apply (upstream_equiv dag dag').
Qed.

(** The engine a call leaves is one that served requests. *)
Lemma served_run `{Runtime} fs (dag : DAG) depth job self r self' :
  served fs dag self → _get_provenance_hash fs dag depth job self = (r, self') →
  served fs dag self'.
Proof.
  intros Hs Hrun.
  eapply (served_call fs dag dag "" depth job self); [done|apply dag_equiv_refl|].
  rewrite get_provenance_hash_as_run, Hrun. done.
Qed.

(** X1 (closed under dependencies).  In every engine one can meet, a job
    with a stored digest has all the jobs upstream of it, however far,
    stored too. *)
Theorem stored_jobs_closed `{Runtime} (fs : FileSystem) (dag : DAG)
    (self : ProvenanceHashMap) (j k : JobId) :
  params_wf dag → served fs dag self →
  is_Some (_hashes self !! j) → rtc (upstream dag) j k →
  is_Some (_hashes self !! k).
Proof.
  intros Hwf Hs Hj Hjk. pose proof (served_closed fs dag self Hwf Hs) as Hcl.
  induction Hjk as [j|j x k Hjx _ IH]; [done|]. apply IH. by eapply Hcl.
Qed.

Lemma stored_jobs_closed_witness :
  let warm := (get_provenance_hash disk diamond 10 3 __init__).2 in
  is_Some (_hashes warm !! 0).
Proof.
  intros warm.
  apply (stored_jobs_closed (H := py) disk diamond warm 3 0).
  - apply diamond_wf.
  - eapply served_call; [apply served_new|apply dag_equiv_refl|].
    apply surjective_pairing.
  - vm_compute. by eexists.
  - apply (rtc_l _ _ 1); [unfold upstream; simpl; set_solver|].
    apply rtc_once. unfold upstream. simpl. set_solver.
Defined.

(** X2 (what a request touches).  A request stores digests only for the job
    asked for and jobs upstream of it; and when it returns a digest, every
    such job has a stored digest afterwards. *)
Theorem request_footprint `{Runtime} (fs : FileSystem) (dag : DAG)
    (self : ProvenanceHashMap) (depth : nat) (job : JobId)
    (r : result string) (self' : ProvenanceHashMap) :
  params_wf dag → served fs dag self →
  get_provenance_hash fs dag depth job self = (r, self') →
  (∀ k, _hashes self !! k = None → is_Some (_hashes self' !! k) →
        rtc (upstream dag) job k) ∧
  (∀ d, r = Ok d → ∀ k, rtc (upstream dag) job k → is_Some (_hashes self' !! k)).
Proof.
  intros Hwf Hs Hcall. unfold get_provenance_hash in Hcall.
  rewrite get_provenance_hash_as_run in Hcall.
  destruct (_get_provenance_hash fs dag depth job self) as [r0 s] eqn:Hrun.
  simpl in Hcall. injection Hcall as Hr <-.
  destruct (served_ok fs dag self Hwf Hs) as [Hok _].
  destruct (run_sound fs dag depth job self _ _ Hok Hrun) as (_ & Hg & Hd0).
  split.
  - intros k Hk Hk'. destruct Hg as (_ & new & _ & _ & Hnew & Hreach).
    apply Hreach. by apply Hnew.
  - intros d Hd k Hjk. rewrite <-Hr in Hd. destruct r0 as [d0|]; [|discriminate].
    eapply (stored_jobs_closed fs dag s job k); [done| | |done].
    + by eapply served_run.
    + exists d0. by apply Hd0.
Qed.

Lemma request_footprint_witness :
  let self' := (get_provenance_hash disk diamond 5 1 __init__).2 in
  let r := (get_provenance_hash disk diamond 5 1 __init__).1 in
  (∀ k, _hashes __init__ !! k = None → is_Some (_hashes self' !! k) →
        rtc (upstream diamond) 1 k) ∧
  (∀ d, r = Ok d → ∀ k, rtc (upstream diamond) 1 k → is_Some (_hashes self' !! k)).
Proof.
  intros self' r.
  apply (request_footprint (H := py) disk diamond __init__ 5 1).
  - apply diamond_wf.
  - apply served_new.
  - apply surjective_pairing.
Defined.

(** ** Jobs that cannot be hashed *)

Lemma tc_step {A} (R : relation A) x y : tc R x y → ∃ z, R x z ∧ rtc R z y.
Proof.
  destruct 1 as [x y Hxy|x z y Hxz Hzy].
  - by exists y.
  - exists z. split; [done|]. by apply tc_rtc.
Qed.

(** A job without a reference digest gets no digest from any engine. *)
Lemma unhashable_raises `{Runtime} fs (dag : DAG) self depth job r self' :
  params_wf dag → served fs dag self →
  (∀ n, provenance fs dag n job = None) →
  get_provenance_hash fs dag depth job self = (r, self') →
  (∃ e, r = Raise e) ∧ _hashes self' !! job = None.
Proof.
  intros Hwf Hs Hnone Hcall. unfold get_provenance_hash in Hcall.
  rewrite get_provenance_hash_as_run in Hcall.
  destruct (_get_provenance_hash fs dag depth job self) as [r0 s] eqn:Hrun.
  simpl in Hcall. injection Hcall as <- <-.
  destruct (served_ok fs dag self Hwf Hs) as [Hok _].
  destruct (run_sound fs dag depth job self _ _ Hok Hrun) as (Hok' & _ & Hd).
  assert (_hashes s !! job = None) as Hjob.
  { destruct (_hashes s !! job) as [d|] eqn:Hj; [|done].
    destruct (Hok' _ _ Hj) as [n Hn]. by rewrite Hnone in Hn. }
  split; [|done]. destruct r0 as [d|e]; [|by exists e].
  rewrite (Hd d eq_refl) in Hjob. done.
Qed.

Lemma tangled_wf : params_wf tangled.
Proof. intros j. do 5 (destruct j as [|j]; [constructor|]). constructor. Qed.

(** X3 (cycles).  A job that is upstream of itself never gets a digest:
    every request for it raises, whatever the stack depth, and leaves no
    digest stored for it. *)
Theorem cyclic_job_never_hashed `{Runtime} (fs : FileSystem) (dag : DAG)
    (self : ProvenanceHashMap) (depth : nat) (job : JobId)
    (r : result string) (self' : ProvenanceHashMap) :
  params_wf dag → served fs dag self →
  tc (upstream dag) job job →
  get_provenance_hash fs dag depth job self = (r, self') →
  (∃ e, r = Raise e) ∧ _hashes self' !! job = None.
Proof.
  intros Hwf Hs (k & Hjk & Hkj)%tc_step. apply unhashable_raises; [done..|].
  intros n. destruct (provenance fs dag n job) as [d|] eqn:Hn; [|done].
  destruct (provenance_acyclic fs dag n job k); [by eexists|done..].
Qed.

Lemma cyclic_job_never_hashed_witness :
  let r := (get_provenance_hash disk tangled 50 0 __init__).1 in
  let self' := (get_provenance_hash disk tangled 50 0 __init__).2 in
  (∃ e, r = Raise e) ∧ _hashes self' !! 0 = None.
Proof.
  intros r self'.
  apply (cyclic_job_never_hashed (H := py) disk tangled __init__ 50 0).
  - apply tangled_wf.
  - apply served_new.
  - apply (tc_l _ _ 1); [unfold upstream; simpl; set_solver|].
    apply tc_once. unfold upstream. simpl. set_solver.
  - apply surjective_pairing.
Defined.

(** X4 (failure reaches downstream).  If some job upstream of the requested
    one, however far, has more than one output or cannot feed its own part
    (a parameter that cannot be serialized, an input that cannot be read),
    the request raises and stores no digest for the requested job. *)
Theorem upstream_failure_propagates `{Runtime} (fs : FileSystem) (dag : DAG)
    (self : ProvenanceHashMap) (depth : nat) (job k : JobId)
    (r : result string) (self' : ProvenanceHashMap) :
  params_wf dag → served fs dag self →
  rtc (upstream dag) job k →
  1 < length (output (jobs dag k)) ∨ (∃ e, hash_own fs dag k = Raise e) →
  get_provenance_hash fs dag depth job self = (r, self') →
  (∃ e, r = Raise e) ∧ _hashes self' !! job = None.
Proof.
  intros Hwf Hs Hjk Hbad. apply unhashable_raises; [done..|].
  intros n. destruct (provenance fs dag n job) as [d|] eqn:Hn; [|done].
  destruct (provenance_rtc fs dag n job k) as [dk Hk]; [by eexists|done|].
  destruct n as [|n]; [done|].
  apply provenance_S in Hk as (Hout & h & _ & _ & Hown & _).
  destruct Hbad as [?|[e He]]; [lia|congruence].
Qed.

Lemma upstream_failure_propagates_witness :
  let r := (get_provenance_hash disk tangled 50 4 __init__).1 in
  let self' := (get_provenance_hash disk tangled 50 4 __init__).2 in
  (∃ e, r = Raise e) ∧ _hashes self' !! 4 = None.
Proof.
  intros r self'.
  apply (upstream_failure_propagates (H := py) disk tangled __init__ 50 4 2).
  - apply tangled_wf.
  - apply served_new.
  - apply (rtc_l _ _ 3); [unfold upstream; simpl; set_solver|].
    apply rtc_once. unfold upstream. simpl. set_solver.
  - left. simpl. lia.
  - apply surjective_pairing.
Defined.

(** X5 (a failed request stores no answer).  When a request for a job
    without a stored digest raises, the job still has no stored digest;
    digests stored on the way for other jobs are kept. *)
Theorem failed_request_not_stored `{Runtime} (fs : FileSystem) (dag : DAG)
    (self : ProvenanceHashMap) (depth : nat) (job : JobId)
    (e : exn) (self' : ProvenanceHashMap) :
  params_wf dag → served fs dag self →
  _hashes self !! job = None →
  get_provenance_hash fs dag depth job self = (Raise e, self') →
  _hashes self' !! job = None ∧ _hashes self ⊆ _hashes self'.
Proof.
  intros Hwf Hs Hjob Hcall. unfold get_provenance_hash in Hcall.
  rewrite get_provenance_hash_as_run in Hcall.
  destruct (_get_provenance_hash fs dag depth job self) as [r0 s] eqn:Hrun.
  simpl in Hcall. injection Hcall as Hr <-.
  destruct r0 as [d|e0]; [done|]. clear Hr.
  destruct (served_ok fs dag self Hwf Hs) as [Hok _].
  destruct (run_sound fs dag depth job self _ _ Hok Hrun) as (Hok' & [Hsub _] & _).
  split; [|done].
  destruct depth as [|depth]; [by injection Hrun as _ <-|].
  apply run_S in Hrun.
  inversion Hrun as [| | |h e' self2 _ Hout Hown Hcalls|]; subst; try done.
  destruct (_hashes s !! job) as [d0|] eqn:Hj; [|done]. exfalso.
  destruct (for_calls_sound fs dag _ _ _ _ _ (run_sound fs dag depth) Hok Hcalls)
    as (_ & (_ & new & _ & _ & Hnew & Hreach) & _).
  destruct (Hreach job) as (x & Hx & Hxj).
  { apply Hnew. split; [done|by exists d0]. }
  destruct (Hok' _ _ Hj) as [n Hn].
  eapply (provenance_acyclic fs dag n job x); [by eexists| |done].
  by apply elem_of_py_set.
Qed.

Lemma failed_request_not_stored_witness :
  let self' := (get_provenance_hash disk tangled 50 4 __init__).2 in
  _hashes self' !! 4 = None ∧ _hashes __init__ ⊆ _hashes self'.
Proof.
  intros self'.
  apply (failed_request_not_stored (H := py) disk tangled __init__ 50 4
           (multi_output tangled 2)).
  - apply tangled_wf.
  - apply served_new.
  - reflexivity.
  - by vm_compute.
Defined.

(** ** Graphs that can be hashed *)

Lemma ranked_provenance `{Runtime} fs (dag : DAG) (good : JobId → Prop)
    (rank : JobId → nat) :
  (∀ k, good k →
     length (output (jobs dag k)) ≤ 1 ∧ (∃ h, hash_own fs dag k = Ok h) ∧
     ∀ k', upstream dag k k' → good k' ∧ rank k' < rank k) →
  ∀ n k, good k → rank k < n → is_Some (provenance fs dag n k).
Proof.
  intros Hgood. induction n as [|n IH]; intros k Hk Hn; [lia|].
  destruct (Hgood k Hk) as (Hout & [h Hown] & Hup).
  destruct (mapM_is_Some_2 (provenance fs dag n) (py_set (dependencies dag k).*1))
    as [ds Hds].
  { apply Forall_forall. intros x Hx. apply (proj1 (elem_of_py_set _ _)) in Hx.
    destruct (Hup x Hx) as [Hgx Hrx]. apply IH; [done|lia]. }
  destruct (hash_deps_ok ds h) as (s & _ & _ & Hdeps).
  eexists. apply provenance_S. split; [done|].
  by exists h, ds, (h ++ mjoin (str_encode <$> s)).
Qed.



(** ** Graphs that hash alike *)

Section same_hashing.
Context `{Runtime}.
Variable fs : FileSystem.
Variables dag1 dag2 : DAG.
Hypothesis Hsame : same_hashing fs dag1 dag2.

Lemma for_calls_same (f1 f2 : JobId → M string) (l : list JobId) self ds self' :
  (∀ job self d self', f1 job self = (Ok d, self') → f2 job self = (Ok d, self')) →
  for_calls f1 l self = (Ok ds, self') → for_calls f2 l self = (Ok ds, self').
Proof.
  intros Hf. revert self ds self'.
  induction l as [|x l IH]; intros self ds self'; simpl; [done|].
  unfold mbind, M_bind.
  destruct (f1 x self) as [[y|e] s1] eqn:Hx; [|done].
  rewrite (Hf _ _ _ _ Hx).
  destruct (for_calls f1 l s1) as [[ys|e] s2] eqn:Hl; [|done].
  by rewrite (IH _ _ _ Hl).
Qed.

Lemma run_same depth job self d self' :
  _get_provenance_hash fs dag1 depth job self = (Ok d, self') →
  _get_provenance_hash fs dag2 depth job self = (Ok d, self').
Proof.
  revert job self d self'.
  induction depth as [|depth IH]; intros job self d self'; [done|].
  rewrite !run_S. destruct (Hsame job) as (Hdeps & Hout & Hown).
  inversion 1 as [d' Hjob| | | |h ds self2 h' Hjob Hout1 Hown1 Hcalls Hd]; subst.
  - by constructor.
  - eapply act_store; [done| | | |done].
    + apply Nat.ltb_ge. rewrite <-Hout. by apply Nat.ltb_ge.
    + by rewrite <-Hown.
    + rewrite <-Hdeps. by eapply for_calls_same.
Qed.

Lemma get_same version depth job self d self' :
  get_provenance_hash_as fs dag1 version depth job self = (Ok d, self') →
  get_provenance_hash_as fs dag2 version depth job self = (Ok d, self').
Proof.
  rewrite !get_provenance_hash_as_Ok. intros (d0 & Hrun & ->).
  exists d0. split; [by apply run_same|done].
Qed.
End same_hashing.

Lemma str_encode_app a b : str_encode (a +:+ b) = str_encode a ++ str_encode b.
Proof.
  unfold str_encode, String.list_byte_of_string.
  induction a as [|c a IH]; simpl; [done|]. by rewrite IH.
Qed.

(** X7 (names do not count).  Giving the jobs other rule names and other
    outputs, as long as no job passes from at most one output to several or
    back, changes no digest: a request that returned a digest returns the
    same digest and leaves the same engine. *)
Theorem digest_ignores_names `{Runtime} (fs : FileSystem) (dag : DAG)
    (nm : JobId → string) (outs : JobId → list Path)
    (depth : nat) (job : JobId) (self self' : ProvenanceHashMap) (d : string) :
  (∀ j, length (outs j) ≤ 1 ↔ length (output (jobs dag j)) ≤ 1) →
  get_provenance_hash fs dag depth job self = (Ok d, self') →
  get_provenance_hash fs (relabelled dag nm outs) depth job self = (Ok d, self').
Proof.
  intros Houts. apply get_same. intros j. split_and!; [done| |done].
  simpl. apply eq_true_iff_eq. rewrite !Nat.ltb_lt. specialize (Houts j). lia.
Qed.

Lemma digest_ignores_names_witness :
  get_provenance_hash disk
    (relabelled diamond (λ _, "other")
       (λ j, (λ f, "out/" +:+ f) <$> output (jobs diamond j)))
    10 3 __init__
  = (Ok "85c3188dfd4bde78df1ee41fc9e3cd01386414fb070c4dad1391d458a06679dd",
     (get_provenance_hash disk diamond 10 3 __init__).2).
Proof.
  apply (digest_ignores_names (H := py) disk diamond).
  - intros j. by rewrite length_fmap.
  - by vm_compute.
Defined.

(** X8 (no separators).  The command text and the parameter items are fed
    one after the other with nothing between them: a shell job with the one
    parameter [(k, v)] and the job whose command is the old command followed
    by [k] and the serialized [v], without parameters, hash alike, and so
    does every job of the two graphs. *)
Theorem command_and_params_run_together `{Runtime} (fs : FileSystem) (dag : DAG)
    (job : JobId) (k : string) (v : PyValue) (s : string)
    (depth : nat) (x : JobId) (self self' : ProvenanceHashMap) (d : string) :
  is_shell (jobs dag job) = true →
  params (jobs dag job) = [(k, v)] →
  json_dumps v = Ok s →
  get_provenance_hash fs dag depth x self = (Ok d, self') →
  get_provenance_hash fs
    (recoded dag job (shellcmd (rule (jobs dag job)) +:+ k +:+ s) [])
    depth x self = (Ok d, self').
Proof.
  intros Hshell Hpars Hs. apply get_same. intros j. split_and!; [done| |].
  - simpl. by destruct (decide (j = job)).
  - unfold hash_own. simpl. destruct (decide (j = job)) as [->|]; [|done].
    unfold hash_code, hash_params. simpl. rewrite Hshell, Hpars. simpl.
    rewrite Hs. simpl. unfold update, sha256_new. simpl.
    by rewrite !str_encode_app, <-!app_assoc.
Qed.

Lemma command_and_params_run_together_witness :
  get_provenance_hash disk
    (recoded diamond 1 (shellcmd (rule (jobs diamond 1)) +:+ "n" +:+ "3") [])
    10 3 __init__
  = (Ok "85c3188dfd4bde78df1ee41fc9e3cd01386414fb070c4dad1391d458a06679dd",
     (get_provenance_hash disk diamond 10 3 __init__).2).
Proof.
  apply (command_and_params_run_together (H := py) disk diamond 1 "n" (PyInt 3) "3").
  - reflexivity.
  - reflexivity.
  - reflexivity.
  - by vm_compute.
Defined.

(** ** Input files, again *)

Lemma for_calls_ext {A B} (f g : A → M B) (l : list A) self :
  (∀ x, x ∈ l → ∀ s, f x s = g x s) → for_calls f l self = for_calls g l self.
Proof.
  revert self. induction l as [|x l IH]; intros self Hfg; simpl; [done|].
  unfold mbind, M_bind. rewrite Hfg by left.
  destruct (g x self) as [[y|e] s]; [|done].
  rewrite IH; [done|]. intros z Hz. apply Hfg. by right.
Qed.

Lemma hash_own_fs `{Runtime} fs fs' (dag : DAG) job :
  hash_own fs dag job = hash_own fs' dag job.
Proof.
  unfold hash_own. destruct (hash_params _ _) as [h|]; [|done].
  cbn [mbind result_bind]. by rewrite !hash_input_filter.
Qed.

Lemma run_fs `{Runtime} fs fs' (dag : DAG) depth job self :
  _get_provenance_hash fs dag depth job self
  = _get_provenance_hash fs' dag depth job self.
Proof.
  revert job self. induction depth as [|depth IH]; intros job self; [done|].
  simpl. unfold mbind, M_bind, lookup, lift. simpl.
  destruct (_hashes self !! job); [done|].
  destruct (1 <? length (output (jobs dag job))); [done|].
  rewrite (hash_own_fs fs fs').
  destruct (hash_own fs' dag job) as [h|]; [|done].
  by rewrite (for_calls_ext _ _ _ _ (λ x _, IH x)).
Qed.



(** X10 (no file is read).  The content of the input files never reaches a
    digest: the one place that opens them raises before looking at the
    file, so every request has the same outcome, result and engine, on any
    two file systems.  (Script and wrapper sources come through
    [get_source], not through the input loop.) *)
Theorem file_contents_never_read `{Runtime} (fs fs' : FileSystem) (dag : DAG)
    (depth : nat) (job : JobId) (self : ProvenanceHashMap) :
  get_provenance_hash fs dag depth job self
  = get_provenance_hash fs' dag depth job self.
Proof.
  unfold get_provenance_hash. rewrite !get_provenance_hash_as_run.
  by rewrite (run_fs fs fs').
Qed.

(** X11 (the block loop).  On a file object that can be read, the loop of
    4096-byte reads feeds the whole content, in order, and ends on the empty
    block and not before, however long the file; on one that cannot be read,
    the first read raises. *)
Theorem read_loop_feeds_whole_file (fo : FileObj) (h : sha256) (n : nat) :
  length (data fo) < n →
  read_blocks n fo h
  = if readable fo then Ok (update h (data fo)) else Raise UnsupportedOperation.
Proof.
  intros Hn. destruct fo as [[] content]; simpl in *.
  - by apply read_blocks_all.
  - destruct n; [lia|done].
Qed.

Lemma read_loop_feeds_whole_file_witness :
  length (data {| readable := true; data := replicate 4100 "x"%byte |}) < 4101 ∧
  read_blocks 4101 {| readable := true; data := replicate 4100 "x"%byte |} []
  = Ok (update [] (replicate 4100 "x"%byte)).
Proof.
  split; [cbn [data]; rewrite length_replicate; lia|].
  apply (read_loop_feeds_whole_file
           {| readable := true; data := replicate 4100 "x"%byte |} [] 4101).
  cbn [data]. rewrite length_replicate. lia.
Defined.

(** ** Jobs that are not upstream *)

Lemma run_local `{Runtime} fs (dag1 dag2 : DAG) depth job self :
  workflow dag1 = workflow dag2 →
  (∀ k, rtc (upstream dag1) job k →
        jobs dag1 k = jobs dag2 k ∧ dependencies dag1 k = dependencies dag2 k) →
  _get_provenance_hash fs dag1 depth job self
  = _get_provenance_hash fs dag2 depth job self.
Proof.
  intros Hw. revert job self.
  induction depth as [|depth IH]; intros job self Hnear; [done|].
  destruct (Hnear job) as [Hj Hd]; [done|].
  assert (hash_own fs dag1 job = hash_own fs dag2 job) as Hown.
  { unfold hash_own, hash_code, hash_env. by rewrite Hj, Hd, Hw. }
  simpl. unfold mbind, M_bind, lookup, lift, multi_output. simpl.
  destruct (_hashes self !! job); [done|]. rewrite Hj, Hown, Hd.
  destruct (1 <? length (output (jobs dag2 job))); [done|].
  destruct (hash_own fs dag2 job) as [h|]; [|done].
  rewrite (for_calls_ext (_get_provenance_hash fs dag1 depth)
             (_get_provenance_hash fs dag2 depth)); [done|].
  intros x Hx s. apply IH. intros k Hk. apply Hnear.
  apply (rtc_l _ _ x); [|done].
  unfold upstream. rewrite Hd. by apply elem_of_py_set.
Qed.

(** X12 (only upstream jobs count).  Two graphs under the same workflow
    that have the same jobs and the same dependencies at the requested job
    and at everything upstream of it, and differ elsewhere as they like,
    give every request for that job the same outcome: the same digest or
    the same exception, and the same engine after it. *)
Theorem unrelated_jobs_do_not_count `{Runtime} (fs : FileSystem) (dag1 dag2 : DAG)
    (depth : nat) (job : JobId) (self : ProvenanceHashMap) :
  workflow dag1 = workflow dag2 →
  (∀ k, rtc (upstream dag1) job k →
        jobs dag1 k = jobs dag2 k ∧ dependencies dag1 k = dependencies dag2 k) →
  get_provenance_hash fs dag1 depth job self
  = get_provenance_hash fs dag2 depth job self.
Proof.
  intros Hw Hnear. unfold get_provenance_hash.
  rewrite !get_provenance_hash_as_run. by rewrite (run_local fs dag1 dag2).
Qed.

Lemma unrelated_jobs_do_not_count_witness :
  get_provenance_hash disk diamond 10 3 __init__
  = get_provenance_hash disk (recoded diamond 4 "rm -rf {input}" []) 10 3 __init__.
Proof.
  apply (unrelated_jobs_do_not_count (H := py) disk diamond
           (recoded diamond 4 "rm -rf {input}" []) 10 3 __init__).
  - reflexivity.
  - assert (∀ j k, rtc (upstream diamond) j k → j ≤ 3 → k ≤ 3) as Hnear.
    { induction 1 as [j|j x k Hjx _ IH]; intros Hj; [done|]. apply IH.
      apply list_elem_of_In in Hjx.
      destruct j as [|[|[|[|j]]]]; [..|lia]; simpl in Hjx; lia. }
    intros k Hk. apply Hnear in Hk; [|lia]. split; [simpl|done].
    destruct (decide (k = 4)); [lia|done].
Defined.
